(** * The task store and the task-list filter of the todo application

    A shallow embedding of [src/store/useTaskStore.js] (the five store
    actions) and of the [tasks.filter] callback of the [TaskList]
    component, with the properties of the specification stated over it.

    JavaScript objects are finite maps from property names to values;
    object spread [{...a, ...b}] is the right-biased merge of the two maps,
    written [b ∪ a] with stdpp's left-biased union.  An exception
    (a [TypeError]) is the result [None]. *)

From Stdlib Require Import ZArith QArith Ascii String.
From stdpp Require Import gmap strings list fin_maps.

Local Open Scope string_scope.
Local Open Scope Z_scope.

(** ** JavaScript values *)

(** Primitive values.  Numbers do not occur in the task data of this
    application (ids, titles, dates, priorities, statuses and tags are all
    strings, [done] is a boolean) and are left out. *)
Inductive prim :=
  | PUndefined
  | PNull
  | PBool (b : bool)
  | PStr (s : string).

(** An array element: a primitive (a tag is a string) or a flat object
    (a subtask is [{id, text, done}]). *)
Inductive elem :=
  | EPrim (p : prim)
  | EObj (o : gmap string prim).

(** A property value of a task: a primitive or an array. *)
Inductive value :=
  | VPrim (p : prim)
  | VArr (a : list elem).

Abbreviation task := (gmap string value).
Abbreviation VStr s := (VPrim (PStr s)).
Abbreviation VUndefined := (VPrim PUndefined).

#[global] Instance prim_eq_dec : EqDecision prim.
Proof. solve_decision. Defined.
#[global] Instance elem_eq_dec : EqDecision elem.
Proof. solve_decision. Defined.
#[global] Instance value_eq_dec : EqDecision value.
Proof. solve_decision. Defined.

(** [ToBoolean]. *)
Definition truthy_prim (p : prim) : bool :=
  match p with
  | PUndefined | PNull => false
  | PBool b => b
  | PStr s => negb (String.eqb s "")
  end.

Definition truthy (v : value) : bool :=
  match v with
  | VPrim p => truthy_prim p
  | VArr _ => true
  end.

(** [o.k] on a task object: a missing property reads as [undefined]. *)
Definition get (t : task) (k : string) : value := default VUndefined (t !! k).

(** [v === s] for a string [s]. *)
Definition prim_is (p : prim) (s : string) : bool :=
  match p with
  | PStr s' => String.eqb s' s
  | _ => false
  end.

Definition value_is (v : value) (s : string) : bool :=
  match v with
  | VPrim p => prim_is p s
  | VArr _ => false
  end.

(** [task.id === id].  The callers pass strings for ids (a [nanoid()]
    result read back from the store, or a route parameter). *)
Definition has_id (t : task) (id : string) : bool := value_is (get t "id") id.

(** ** The store actions

    Each action is the function that [set] applies to [state.tasks].
    [nanoid()] is a library call; its result is the argument [fresh]. *)

Definition defaults (fresh : string) : task :=
  {[ "id" := VStr fresh; "status" := VStr "Pending"; "subtasks" := VArr [] ]}.

(** [{ id: nanoid(), status: "Pending", subtasks: [], ...taskData }] *)
Definition newTask (fresh : string) (taskData : task) : task :=
  taskData ∪ defaults fresh.

Definition addTask (fresh : string) (taskData : task) (tasks : list task)
  : list task :=
  newTask fresh taskData :: tasks.

Definition updateTask (id : string) (updates : task) (tasks : list task)
  : list task :=
  map (λ t, if has_id t id then updates ∪ t else t) tasks.

Definition deleteTask (id : string) (tasks : list task) : list task :=
  List.filter (λ t, negb (has_id t id)) tasks.

Definition flipStatus (t : task) : string :=
  if value_is (get t "status") "Completed" then "Pending" else "Completed".

Definition toggleStatus (id : string) (tasks : list task) : list task :=
  map (λ t, if has_id t id then <["status" := VStr (flipStatus t)]> t else t)
      tasks.

(** [sub.id === subtaskId ? { ...sub, done: !sub.done } : sub].  Reading
    [sub.id] throws on [undefined] and [null]; on a string or a boolean it
    is [undefined], which is never [===] to a string. *)
Definition toggleSub (subtaskId : string) (sub : elem) : option elem :=
  match sub with
  | EObj o =>
      if prim_is (default PUndefined (o !! "id")) subtaskId then
        let done := default PUndefined (o !! "done") in
        Some (EObj (<["done" := PBool (negb (truthy_prim done))]> o))
      else Some sub
  | EPrim PUndefined | EPrim PNull => None
  | EPrim (PBool _) | EPrim (PStr _) => Some sub
  end.

(** [(task.subtasks || []).map(...)]: a falsy [subtasks] is replaced by
    the empty array; a truthy value that is not an array has no [map]. *)
Definition toggleSubs (subtaskId : string) (v : value) : option (list elem) :=
  match v with
  | VArr a => mapM (toggleSub subtaskId) a
  | VPrim p => if truthy_prim p then None else Some []
  end.

Definition toggleSubtaskIn (taskId subtaskId : string) (t : task)
  : option task :=
  if negb (has_id t taskId) then Some t
  else
    subs ← toggleSubs subtaskId (get t "subtasks");
    Some (<["subtasks" := VArr subs]> t).

Definition toggleSubtask (taskId subtaskId : string) (tasks : list task)
  : option (list task) :=
  mapM (toggleSubtaskIn taskId subtaskId) tasks.

(** [initialTasks], with the nine [nanoid()] results in evaluation order. *)
Definition mkSub (id text : string) (done : bool) : elem :=
  EObj {[ "id" := PStr id; "text" := PStr text; "done" := PBool done ]}.

Definition mkTask (id title description dueDate priority status : string)
    (tags : list string) (subtasks : list elem) : task :=
  {[ "id" := VStr id; "title" := VStr title;
     "description" := VStr description; "dueDate" := VStr dueDate;
     "priority" := VStr priority; "status" := VStr status;
     "tags" := VArr (map (λ s, EPrim (PStr s)) tags);
     "subtasks" := VArr subtasks ]}.

Definition initialTasks (nanoid : nat → string) : list task :=
  [ mkTask (nanoid 0%nat) "Finish React homework"
      "Work on the notes app UI and connect it to Zustand + React Router."
      "2025-11-14" "High" "Pending" ["Learning"; "React"]
      [ mkSub (nanoid 1%nat) "Review requirements" false;
        mkSub (nanoid 2%nat) "Connect store to UI" false ];
    mkTask (nanoid 3%nat) "Prepare JS class"
      "Plan examples for array methods and localStorage practice."
      "2025-11-15" "Medium" "Pending" ["Teaching"; "Daily"]
      [ mkSub (nanoid 4%nat) "Pick 3 array methods" true;
        mkSub (nanoid 5%nat) "Write mini exercises" false ];
    mkTask (nanoid 6%nat) "Workout + stretch"
      "Quick walk + stretch session to reset after coding."
      "2025-11-14" "Low" "Completed" ["Health"; "Daily"]
      [ mkSub (nanoid 7%nat) "10 min walk" true;
        mkSub (nanoid 8%nat) "Stretch legs + back" true ] ].

(** ** Strings

    Strings are byte strings; [toLowerCase] and [trim] are the ASCII parts
    of the JavaScript methods (letters [A]-[Z]; blank, tab, line feed,
    vertical tab, form feed and carriage return). *)

Definition lowerChar (c : ascii) : ascii :=
  let n := nat_of_ascii c in
  if (65 <=? n)%nat && (n <=? 90)%nat then ascii_of_nat (n + 32) else c.

Fixpoint toLowerCase (s : string) : string :=
  match s with
  | EmptyString => EmptyString
  | String c r => String (lowerChar c) (toLowerCase r)
  end.

Definition isSpace (c : ascii) : bool :=
  let n := nat_of_ascii c in
  (n =? 32)%nat || ((9 <=? n)%nat && (n <=? 13)%nat).

Fixpoint trimStart (s : string) : string :=
  match s with
  | EmptyString => EmptyString
  | String c r => if isSpace c then trimStart r else s
  end.

Fixpoint trimEnd (s : string) : string :=
  match s with
  | EmptyString => EmptyString
  | String c r =>
      let r' := trimEnd r in
      if isSpace c && String.eqb r' "" then EmptyString else String c r'
  end.

Definition trim (s : string) : string := trimEnd (trimStart s).

(** [s.includes(sub)] *)
Fixpoint includes (s sub : string) : bool :=
  String.prefix sub s ||
  match s with
  | EmptyString => false
  | String _ r => includes r sub
  end.

(** [v.toLowerCase()]: only a string has the method. *)
Definition toLowerCaseV (v : value) : option string :=
  match v with
  | VPrim (PStr s) => Some (toLowerCase s)
  | _ => None
  end.

(** ** Dates

    [Date] belongs to the host, not to the application.  A time value is a
    number of milliseconds since the epoch; [None] is the time value [NaN]
    of an invalid date.  The host supplies the clock (read once for a run
    of the filter, which is synchronous), the offset of local time
    ([LocalTZA(t, isUTC)] of ECMAScript) and [Date.parse].  Time values
    stay far from the limits of [TimeClip], which is left out. *)

Record host := {
  now : Z;
  LocalTZA : Z → bool → Z;
  parse : string → option Z
}.

Definition msPerDay : Z := 1000 * 60 * 60 * 24.

(** [Day(LocalTime(t))]: the number of the local calendar day of [t]. *)
Definition localDay (h : host) (t : Z) : Z := (t + LocalTZA h t true) / msPerDay.

(** [d.setHours(0, 0, 0, 0)] on a valid date: local midnight of the local
    day of [t], converted back to a time value. *)
Definition setHours0 (h : host) (t : Z) : Z :=
  let m := localDay h t * msPerDay in
  m - LocalTZA h m false.

(** [String(e)] for an array element, as [Array.prototype.join] uses it. *)
Definition elemToString (e : elem) : string :=
  match e with
  | EPrim PUndefined | EPrim PNull => ""
  | EPrim (PBool b) => if b then "true" else "false"
  | EPrim (PStr s) => s
  | EObj _ => "[object Object]"
  end.

(** [new Date(v).getTime()]: a string is parsed, a boolean or [null] is
    converted to a number, an array is first converted to a string. *)
Definition newDate (h : host) (v : value) : option Z :=
  match v with
  | VPrim PUndefined => None
  | VPrim PNull => Some 0
  | VPrim (PBool b) => Some (if b then 1 else 0)
  | VPrim (PStr s) => parse h s
  | VArr a => parse h (String.concat "," (map elemToString a))
  end.

(** ** The filter of [TaskList] *)

Record filters := {
  search : string;
  status : string;
  priority : string;
  tag : string;
  date : string
}.

Definition matchesSearch (f : filters) (t : task) : option bool :=
  if String.eqb (trim (search f)) "" then Some true
  else
    title ← toLowerCaseV (get t "title");
    if includes title (toLowerCase (search f)) then Some true
    else
      description ← toLowerCaseV (get t "description");
      Some (includes description (toLowerCase (search f))).

Definition matchesStatus (f : filters) (t : task) : bool :=
  String.eqb (status f) "all" || value_is (get t "status") (status f).

Definition matchesPriority (f : filters) (t : task) : bool :=
  String.eqb (priority f) "all" || value_is (get t "priority") (priority f).

Definition elem_is (e : elem) (s : string) : bool :=
  match e with
  | EPrim p => prim_is p s
  | EObj _ => false
  end.

(** [task.tags && task.tags.some((tag) => tag === filters.tag)] *)
Definition matchesTag (f : filters) (t : task) : option bool :=
  if String.eqb (tag f) "all" then Some true
  else
    match get t "tags" with
    | VArr a => Some (existsb (λ e, elem_is e (tag f)) a)
    | VPrim p => if truthy_prim p then None else Some false
    end.

(** [diffDays] is a quotient of two integers; it is kept exact.  The
    double the program computes compares with [0] and [7] in the same way,
    the numerator being a whole number of milliseconds. *)
Definition matchesDate (h : host) (f : filters) (t : task) : bool :=
  if String.eqb (date f) "all" || negb (truthy (get t "dueDate")) then true
  else
    let today := setHours0 h (now h) in
    let due := setHours0 h <$> newDate h (get t "dueDate") in
    if String.eqb (date f) "today" then
      match due with Some d => d =? today | None => false end
    else if String.eqb (date f) "overdue" then
      match due with Some d => d <? today | None => false end
      && negb (value_is (get t "status") "Completed")
    else if String.eqb (date f) "week" then
      match due with
      | Some d =>
          let diffDays := (inject_Z (d - today) / inject_Z msPerDay)%Q in
          Qle_bool 0 diffDays && Qle_bool diffDays 7
      | None => false
      end
    else true.

(** The callback of [tasks.filter]: the five constants are computed in
    order, then combined. *)
Definition matches (h : host) (f : filters) (t : task) : option bool :=
  s ← matchesSearch f t;
  g ← matchesTag f t;
  Some (s && matchesStatus f t && matchesPriority f t && g && matchesDate h f t).

Fixpoint filterM {A} (p : A → option bool) (l : list A) : option (list A) :=
  match l with
  | [] => Some []
  | x :: r =>
      match p x, filterM p r with
      | Some b, Some r' => Some (if b then x :: r' else r')
      | _, _ => None
      end
  end.

Definition filteredTasks (h : host) (f : filters) (tasks : list task)
  : option (list task) :=
  filterM (matches h f) tasks.

(** ** Two hosts

    [Date.parse] on the date-only form [YYYY-MM-DD] of the ECMAScript date
    string format: UTC midnight of that day.  The other forms a host may
    accept are not needed below and read as invalid. *)

Definition digit (c : ascii) : option Z :=
  let n := nat_of_ascii c in
  if (48 <=? n)%nat && (n <=? 57)%nat then Some (Z.of_nat n - 48) else None.

Definition isLeap (y : Z) : bool :=
  (y mod 4 =? 0) && (negb (y mod 100 =? 0) || (y mod 400 =? 0)).

Definition daysInMonth (y m : Z) : Z :=
  if m =? 2 then (if isLeap y then 29 else 28)
  else if (m =? 4) || (m =? 6) || (m =? 9) || (m =? 11) then 30
  else 31.

(** Days from 1970-01-01 to the civil date [y]-[m]-[d]. *)
Definition daysFromCivil (y m d : Z) : Z :=
  let y' := if m <=? 2 then y - 1 else y in
  let era := y' / 400 in
  let yoe := y' - era * 400 in
  let doy := (153 * (if 2 <? m then m - 3 else m + 9) + 2) / 5 + d - 1 in
  let doe := yoe * 365 + yoe / 4 - yoe / 100 + doy in
  era * 146097 + doe - 719468.

Definition parseIsoDate (s : string) : option Z :=
  match s with
  | String y1 (String y2 (String y3 (String y4 (String "-"
      (String m1 (String m2 (String "-" (String d1 (String d2 EmptyString)))))))))
    =>
      a ← digit y1; b ← digit y2; c ← digit y3; e ← digit y4;
      i ← digit m1; j ← digit m2; k ← digit d1; l ← digit d2;
      let y := 1000 * a + 100 * b + 10 * c + e in
      let m := 10 * i + j in
      let d := 10 * k + l in
      if (1 <=? m) && (m <=? 12) && (1 <=? d) && (d <=? daysInMonth y m)
      then Some (daysFromCivil y m d * msPerDay)
      else None
  | _ => None
  end.

(** A host whose local time is a fixed offset from UTC. *)
Definition fixedHost (clock offset : Z) : host :=
  {| now := clock; LocalTZA := λ _ _, offset; parse := parseIsoDate |}.

(** Central European time around the end of summer time in 2025
    (2025-10-26T01:00:00Z): UTC+2 before it, UTC+1 after it.  A local time
    that occurs twice is read with the offset before the transition. *)
Definition summerTimeEnd2025 : Z := 1761440400000.

Definition cetOffset (t : Z) (isUTC : bool) : Z :=
  if isUTC then (if t <? summerTimeEnd2025 then 7200000 else 3600000)
  else (if t <? summerTimeEnd2025 + 7200000 then 7200000 else 3600000).

Definition cetHost (clock : Z) : host :=
  {| now := clock; LocalTZA := cetOffset; parse := parseIsoDate |}.

(** ** The store as a state machine

    An action carries its arguments; [AddTask] also carries the result of
    its [nanoid()] call.  An action whose updater throws leaves the state
    as it was ([set] is never reached with a new value). *)

Inductive action :=
  | AddTask (fresh : string) (taskData : task)
  | UpdateTask (id : string) (updates : task)
  | DeleteTask (id : string)
  | ToggleStatus (id : string)
  | ToggleSubtask (taskId subtaskId : string).

Definition dispatch (a : action) (tasks : list task) : list task :=
  match a with
  | AddTask fresh taskData => addTask fresh taskData tasks
  | UpdateTask id updates => updateTask id updates tasks
  | DeleteTask id => deleteTask id tasks
  | ToggleStatus id => toggleStatus id tasks
  | ToggleSubtask taskId subtaskId =>
      default tasks (toggleSubtask taskId subtaskId tasks)
  end.

(** A sequence of [addTask] calls, first call first. *)
Definition addTasks (calls : list (string * task)) (tasks : list task)
  : list task :=
  foldl (λ acc c, addTask c.1 c.2 acc) tasks calls.

(** ** Vocabulary of the properties *)

Definition ids (tasks : list task) : list value := map (λ t, get t "id") tasks.

Definition statusOk (t : task) : Prop :=
  get t "status" = VStr "Pending" ∨ get t "status" = VStr "Completed".

(** The [status] a caller passes, if any, is one of the two. *)
Definition statusFieldOk (fields : task) : Prop :=
  fields !! "status" = None ∨
  fields !! "status" = Some (VStr "Pending") ∨
  fields !! "status" = Some (VStr "Completed").

Definition actionStatusOk (a : action) : Prop :=
  match a with
  | AddTask _ taskData => statusFieldOk taskData
  | UpdateTask _ updates => statusFieldOk updates
  | _ => True
  end.

(** The elements of [task.subtasks], none when it is not an array. *)
Definition subtasksOf (t : task) : list elem :=
  match get t "subtasks" with
  | VArr a => a
  | VPrim _ => []
  end.

(** [sub.k] for an array element and a property [k] that only an object
    can have ([id], [done]): reading a property of [undefined] or [null]
    throws, a string or a boolean has no such property. *)
Definition elem_get (e : elem) (k : string) : option prim :=
  match e with
  | EObj o => Some (default PUndefined (o !! k))
  | EPrim PUndefined | EPrim PNull => None
  | EPrim (PBool _) | EPrim (PStr _) => Some PUndefined
  end.

(** [sub.id === subtaskId], false where reading [sub.id] throws. *)
Definition sub_has_id (e : elem) (subtaskId : string) : bool :=
  match elem_get e "id" with
  | Some p => prim_is p subtaskId
  | None => false
  end.

(** Some task with id [taskId] has a subtask with id [subtaskId]. *)
Definition pairOccurs (taskId subtaskId : string) (tasks : list task) : bool :=
  existsb (λ t, has_id t taskId &&
                existsb (λ e, sub_has_id e subtaskId) (subtasksOf t)) tasks.

Definition idOccurs (id : string) (tasks : list task) : bool :=
  existsb (λ t, has_id t id) tasks.

(** An element of a subtask list on which [sub.id] can be read. *)
Definition readable (e : elem) : Prop :=
  match e with
  | EPrim PUndefined | EPrim PNull => False
  | _ => True
  end.

(** [task.subtasks] is an array of readable elements. *)
Definition subtasksArray (t : task) : Prop :=
  ∃ a, t !! "subtasks" = Some (VArr a) ∧ Forall readable a.

(** [sub.done], [undefined] where it cannot be read. *)
Definition doneOf (e : elem) : prim := default PUndefined (elem_get e "done").

(** The [done] flags of the subtasks of a task, in order. *)
Definition doneFlags (t : task) : list prim := map doneOf (subtasksOf t).

Definition isBool (p : prim) : Prop := ∃ b, p = PBool b.

(** The five dimensions of a filter specification. *)
Inductive dimension := DSearch | DStatus | DPriority | DTag | DDate.

(** The filter with one dimension set to its match-all value. *)
Definition relax (d : dimension) (f : filters) : filters :=
  match d with
  | DSearch => {| search := ""; status := status f; priority := priority f;
                  tag := tag f; date := date f |}
  | DStatus => {| search := search f; status := "all"; priority := priority f;
                  tag := tag f; date := date f |}
  | DPriority => {| search := search f; status := status f; priority := "all";
                    tag := tag f; date := date f |}
  | DTag => {| search := search f; status := status f; priority := priority f;
               tag := "all"; date := date f |}
  | DDate => {| search := search f; status := status f; priority := priority f;
                tag := tag f; date := "all" |}
  end.

(** [b] implies [b']. *)
Definition grows (b b' : bool) : Prop := b = true → b' = true.

(** The date predicate as the specification words it for ["week"]: no due
    date, or the local calendar day of the due date is one of the eight
    days from today to today + 7. *)
Definition inWeekWindow (h : host) (t : task) : Prop :=
  truthy (get t "dueDate") = false ∨
  ∃ d, newDate h (get t "dueDate") = Some d ∧
       localDay h (now h) ≤ localDay h d ≤ localDay h (now h) + 7.

(** ** The pages that read the store *)

(** [tasks.find((task) => task.id === id)] of the notes page and of the
    edit form: the first task with the id, if any. *)
Definition findTask (id : string) (tasks : list task) : option task :=
  List.find (λ t, has_id t id) tasks.

(** The summary of the home page: [total], [completed] and
    [pending = total - completed]. *)
Record stats := { total : Z; completed : Z; pending : Z }.

Definition isCompleted (t : task) : bool := value_is (get t "status") "Completed".

Definition summary (tasks : list task) : stats :=
  let total := Z.of_nat (length tasks) in
  let completed := Z.of_nat (length (List.filter isCompleted tasks)) in
  {| total := total; completed := completed; pending := total - completed |}.

(** An action that cannot create a second task with an id in use: a fresh
    [nanoid()] result that the fields do not replace, or an update that
    leaves the id alone. *)
Definition keepsIds (a : action) (tasks : list task) : Prop :=
  match a with
  | AddTask fresh taskData =>
      taskData !! "id" = None ∧ VStr fresh ∉ ids tasks
  | UpdateTask _ updates => updates !! "id" = None
  | _ => True
  end.

(** A [subtasks] on which [(task.subtasks || []).map(...)] does not throw:
    falsy, or an array without [null] and [undefined]. *)
Definition subtasksUsable (t : task) : Prop :=
  match get t "subtasks" with
  | VArr a => Forall readable a
  | VPrim p => truthy_prim p = false
  end.

(** What [toggleSubtask] does to one element of [subtasks]: nothing unless
    its id is [subtaskId], else [done] becomes the negation of its
    truthiness and the other properties stay. *)
Definition subToggled (subtaskId : string) (e e' : elem) : Prop :=
  (sub_has_id e subtaskId = false → e' = e) ∧
  (sub_has_id e subtaskId = true →
     doneOf e' = PBool (negb (truthy_prim (doneOf e))) ∧
     ∀ k, k ≠ "done" → elem_get e' k = elem_get e k).

(** ** The home page and the filter bar *)

(** The filters the home page starts with. *)
Definition homeFilters : filters :=
  {| search := ""; status := "all"; priority := "all"; tag := "all";
     date := "all" |}.

(** [handleChange] of the filter bar: [{ ...filters, [name]: value }].  A
    name other than the five adds a property that the list does not read. *)
Definition handleFilterChange (name value : string) (f : filters) : filters :=
  if String.eqb name "search" then
    {| search := value; status := status f; priority := priority f;
       tag := tag f; date := date f |}
  else if String.eqb name "status" then
    {| search := search f; status := value; priority := priority f;
       tag := tag f; date := date f |}
  else if String.eqb name "priority" then
    {| search := search f; status := status f; priority := value;
       tag := tag f; date := date f |}
  else if String.eqb name "tag" then
    {| search := search f; status := status f; priority := priority f;
       tag := value; date := date f |}
  else if String.eqb name "date" then
    {| search := search f; status := status f; priority := priority f;
       tag := tag f; date := value |}
  else f.

(** [handleTagClick]: [{ ...filters, tag: filters.tag === tag ? "all" : tag }] *)
Definition handleTagClick (clicked : string) (f : filters) : filters :=
  {| search := search f; status := status f; priority := priority f;
     tag := if String.eqb (tag f) clicked then "all" else clicked;
     date := date f |}.

Definition tagOptions : list string := ["Daily"; "Monthly"; "Classes"; "Work"].

(** The names of the controls of the filter bar that call [handleChange]. *)
Definition barInputs : list string := ["search"; "status"; "priority"].

(** What the user can do on the filter bar: change one of its controls, or
    click one of its tag buttons. *)
Inductive barEvent :=
  | Changed (name value : string)
  | TagClicked (clicked : string).

Definition onBar (f : filters) (e : barEvent) : filters :=
  match e with
  | Changed name value => handleFilterChange name value f
  | TagClicked clicked => handleTagClick clicked f
  end.

Definition fromBar (e : barEvent) : Prop :=
  match e with
  | Changed name _ => name ∈ barInputs
  | TagClicked clicked => clicked ∈ tagOptions
  end.

(** A task on which no filter throws: [title] and [description] are
    strings, [tags] is an array or falsy. *)
Definition filterable (t : task) : Prop :=
  (∃ s, get t "title" = VStr s) ∧
  (∃ s, get t "description" = VStr s) ∧
  match get t "tags" with
  | VArr _ => True
  | VPrim p => truthy_prim p = false
  end.

(** ** The add and edit form

    The form state is an object of seven properties.  A control stores a
    string; loading a task for editing stores whatever the task holds. *)

Definition emptyForm : task :=
  {[ "title" := VStr ""; "description" := VStr ""; "dueDate" := VStr "";
     "priority" := VStr "Medium"; "status" := VStr "Pending";
     "tags" := VStr ""; "subtasks" := VStr "" ]}.

Definition newline : string := String "010"%char "".

(** [s.split(sep)] for a separator of one character. *)
Fixpoint split (sep : ascii) (s : string) : list string :=
  match s with
  | EmptyString => [EmptyString]
  | String c r =>
      if Ascii.eqb c sep then EmptyString :: split sep r
      else match split sep r with
           | x :: xs => String c x :: xs
           | [] => [String c EmptyString]
           end
  end.




(** [Boolean(id)] for the route parameter, absent on the add route. *)
Definition isEditing (id : option string) : bool :=
  match id with
  | Some s => negb (String.eqb s "")
  | None => false
  end.


(** [handleChange] of the form: [{ ...prev, [name]: value }] *)
Definition handleFormChange (name value : string) (prev : task) : task :=
  <[name := VStr value]> prev.

(** The receiver of [.trim()] and [.split()]: only a string has them. *)
Definition asString (v : value) : option string :=
  match v with
  | VPrim (PStr s) => Some s
  | _ => None
  end.

Definition payloadTags (tags : string) : list elem :=
  if String.eqb (trim tags) "" then []
  else map (λ x, EPrim (PStr (trim x))) (split ","%char tags).

(** The lines kept as subtasks: trimmed and not empty. *)
Definition subtaskLines (subtasks : string) : list string :=
  List.filter (λ line, negb (String.eqb line ""))
              (map trim (split "010"%char subtasks)).

(** The [k]-th [nanoid()] call of a submit returns [nanoid k]. *)
Definition payloadSubtasks (nanoid : nat → string) (subtasks : string)
  : list elem :=
  if String.eqb (trim subtasks) "" then []
  else imap (λ i text, mkSub (nanoid i) text false) (subtaskLines subtasks).

Definition payload (nanoid : nat → string) (form : task) : option task :=
  title ← asString (get form "title");
  description ← asString (get form "description");
  tags ← asString (get form "tags");
  subtasks ← asString (get form "subtasks");
  Some {[ "title" := VStr (trim title);
          "description" := VStr (trim description);
          "dueDate" := get form "dueDate";
          "priority" := get form "priority";
          "status" := get form "status";
          "tags" := VArr (payloadTags tags);
          "subtasks" := VArr (payloadSubtasks nanoid subtasks) ]}.

(** What a submit does: warn and stop, or save and leave the page. *)
Inductive outcome :=
  | Alerted
  | Saved (tasks : list task).

Definition handleSubmit (nanoid : nat → string) (id : option string)
    (form : task) (tasks : list task) : option outcome :=
  p ← payload nanoid form;
  if negb (truthy (get p "title")) then Some Alerted
  else if isEditing id then Some (Saved (updateTask (default "" id) p tasks))
  else Some (Saved (addTask (nanoid (length (subtasksOf p))) p tasks)).

(** A string of blanks only. *)
Fixpoint allSpace (s : string) : bool :=
  match s with
  | EmptyString => true
  | String c r => isSpace c && allSpace r
  end.



(** One change of the store that the pages can make: a submit of the
    form that saves, the status button and the delete button of a task
    card, a checkbox of the notes page. *)
Inductive uiStep : list task → list task → Prop :=
  | step_submit nanoid id form tasks tasks' :
      handleSubmit nanoid id form tasks = Some (Saved tasks') →
      uiStep tasks tasks'
  | step_toggle id tasks :
      uiStep tasks (dispatch (ToggleStatus id) tasks)
  | step_delete id tasks :
      uiStep tasks (dispatch (DeleteTask id) tasks)
  | step_check taskId subtaskId tasks :
      uiStep tasks (dispatch (ToggleSubtask taskId subtaskId) tasks).

(** A task on which neither the filter nor [toggleSubtask] throws. *)
Definition usable (t : task) : Prop := filterable t ∧ subtasksUsable t.


(** ** Basic facts *)

(** Case split on a membership [H : x ∈ [a; b; ...]]. *)
Ltac split_elem H := repeat (apply elem_of_cons in H as [->|H]).

Create HintDb store.

Lemma value_is_true v s : value_is v s = true ↔ v = VStr s.
Proof.
  destruct v as [[| |b|s']|a]; simpl; try (split; [discriminate|congruence]).
  rewrite String.eqb_eq. split; congruence.
Qed.

Lemma value_is_false v s : value_is v s = false ↔ v ≠ VStr s.
Proof.
  rewrite <- value_is_true. destruct (value_is v s); split; congruence.
Qed.

Lemma has_id_true t id : has_id t id = true ↔ get t "id" = VStr id.
Proof. apply value_is_true. Qed.

Lemma get_lookup (t : task) k v : t !! k = Some v → get t k = v.
Proof. unfold get. intros ->. reflexivity. Qed.

Lemma get_union_l (m t : task) k v : m !! k = Some v → get (m ∪ t) k = v.
Proof. intros H. apply get_lookup. by apply lookup_union_Some_l. Qed.

Lemma get_union_r (m t : task) k : m !! k = None → get (m ∪ t) k = get t k.
Proof. intros H. unfold get. by rewrite lookup_union_r. Qed.

Lemma get_insert_eq (t : task) k v : get (<[k:=v]> t) k = v.
Proof. unfold get. by rewrite lookup_insert_eq. Qed.

Lemma get_insert_ne (t : task) k k' v : k ≠ k' → get (<[k:=v]> t) k' = get t k'.
Proof. intros H. unfold get. by rewrite lookup_insert_ne. Qed.

Lemma newTask_fields fresh (taskData : task) k v :
  taskData !! k = Some v → newTask fresh taskData !! k = Some v.
Proof. intros H. unfold newTask. by apply lookup_union_Some_l. Qed.

Lemma newTask_default fresh (taskData : task) k :
  taskData !! k = None → newTask fresh taskData !! k = defaults fresh !! k.
Proof. intros H. unfold newTask. by rewrite lookup_union_r. Qed.

Lemma defaults_id fresh : defaults fresh !! "id" = Some (VStr fresh).
Proof. reflexivity. Qed.

Lemma defaults_status fresh : defaults fresh !! "status" = Some (VStr "Pending").
Proof. reflexivity. Qed.

Lemma defaults_subtasks fresh : defaults fresh !! "subtasks" = Some (VArr []).
Proof. reflexivity. Qed.

(** ** Creation: [addTask] *)

(** C10.  [addTask] merges the caller's fields after the generated
    defaults, so every key present in the fields argument wins over the
    store-generated value: the created task, which is the first of the new
    collection, carries the caller's value under that key.  With the key
    [id] the generated id is discarded; with [status] or [subtasks] the
    [Pending] and empty-list defaults are replaced. *)
Theorem addTask_caller_fields_win fresh (taskData : task) tasks k v :
  taskData !! k = Some v →
  ∃ t, addTask fresh taskData tasks = t :: tasks ∧
       t !! k = Some v ∧ get t k = v.
Proof.
  intros H. exists (newTask fresh taskData). split; [reflexivity|].
  pose proof (newTask_fields fresh taskData k v H) as Hk.
  split; [exact Hk | by apply get_lookup].
Qed.

Lemma addTask_caller_fields_win_witness :
  ({[ "id" := VStr "mine"; "status" := VStr "Completed" ]} : task) !! "id"
    = Some (VStr "mine") ∧
  ∃ t, addTask "V1StGXR8" {[ "id" := VStr "mine"; "status" := VStr "Completed" ]} []
         = [t] ∧
       t !! "id" = Some (VStr "mine") ∧ get t "id" = VStr "mine".
Proof.
  split; [reflexivity|].
  apply (addTask_caller_fields_win "V1StGXR8"
           {[ "id" := VStr "mine"; "status" := VStr "Completed" ]} [] "id"
           (VStr "mine")).
  reflexivity.
Defined.

(** The three instances C10 names, read off the same merge. *)
Lemma addTask_id_override fresh (taskData : task) v :
  taskData !! "id" = Some v → get (newTask fresh taskData) "id" = v.
Proof. intros H. apply get_lookup, newTask_fields, H. Qed.

Lemma addTask_status_override fresh (taskData : task) v :
  taskData !! "status" = Some v → get (newTask fresh taskData) "status" = v.
Proof. intros H. apply get_lookup, newTask_fields, H. Qed.

Lemma addTask_subtasks_override fresh (taskData : task) v :
  taskData !! "subtasks" = Some v → get (newTask fresh taskData) "subtasks" = v.
Proof. intros H. apply get_lookup, newTask_fields, H. Qed.

Example addTask_generated_id_discarded :
  ids (addTask "V1StGXR8" {[ "id" := VStr "mine" ]} []) = [VStr "mine"].
Proof. reflexivity. Qed.

(** C2, as stated, fails: a [status] key in the fields replaces [Pending].
    The form of the application sends its status selection this way. *)
Lemma addTask_status_not_always_pending :
  let fields : task := {[ "title" := VStr "X"; "status" := VStr "Completed" ]} in
  ∃ t, addTask "V1StGXR8" fields [] = [t] ∧
       get t "status" = VStr "Completed" ∧
       get t "status" ≠ VStr "Pending".
Proof.
  exists (newTask "V1StGXR8" {[ "title" := VStr "X"; "status" := VStr "Completed" ]}).
  split; [reflexivity|]. split; [reflexivity|]. vm_compute. discriminate.
Qed.

(** C2, amended.  The task created by [addTask(fields)] has status
    [Pending] whenever [fields] has no [status] key, and an empty subtask
    list whenever [fields] has no [subtasks] key. *)
Theorem addTask_defaults fresh (taskData : task) tasks :
  ∃ t, addTask fresh taskData tasks = t :: tasks ∧
       (taskData !! "status" = None → get t "status" = VStr "Pending") ∧
       (taskData !! "subtasks" = None → get t "subtasks" = VArr []).
Proof.
  exists (newTask fresh taskData). split; [reflexivity|]. split; intros H.
  - apply get_lookup. by rewrite newTask_default.
  - apply get_lookup. by rewrite newTask_default.
Qed.

Lemma addTask_defaults_witness :
  let fields : task := {[ "title" := VStr "X" ]} in
  fields !! "status" = None ∧ fields !! "subtasks" = None ∧
  get (newTask "V1StGXR8" fields) "status" = VStr "Pending" ∧
  get (newTask "V1StGXR8" fields) "subtasks" = VArr [].
Proof.
  simpl.
  destruct (addTask_defaults "V1StGXR8" {[ "title" := VStr "X" ]} [])
    as (t & Ht & Hs & Hsub).
  injection Ht as <-.
  split; [reflexivity|]. split; [reflexivity|].
  split; [apply Hs | apply Hsub]; reflexivity.
Defined.

(** *** Uniqueness of ids *)

Lemma ids_addTask_no_id fresh (taskData : task) tasks :
  taskData !! "id" = None →
  ids (addTask fresh taskData tasks) = VStr fresh :: ids tasks.
Proof.
  intros H. unfold addTask, ids. simpl. f_equal.
  apply get_lookup. by rewrite newTask_default.
Qed.

(** C1, as stated, fails: two calls whose fields carry the same [id] key
    give two tasks with that id, whatever [nanoid()] returned; and a
    collection that starts with a repeated id keeps it. *)
Lemma addTask_ids_not_always_distinct :
  let fields : task := {[ "id" := VStr "x"; "title" := VStr "X" ]} in
  let twice := addTasks [("V1StGXR8", fields); ("Z5jdHi6B", fields)] [] in
  (ids twice = [VStr "x"; VStr "x"] ∧ ¬ NoDup (ids twice)) ∧
  ¬ NoDup (ids (addTasks [("myT0kenA", {[ "title" := VStr "Y" ]})] twice)).
Proof.
  simpl. split; [split; [reflexivity|]|].
  - intros H. apply NoDup_cons in H as [Hin _]. apply Hin. vm_compute. left.
  - intros H. apply NoDup_cons in H as [_ H].
    apply NoDup_cons in H as [Hin _]. apply Hin. vm_compute. left.
Qed.

(** C1, amended.  For every sequence of [addTask] calls whose fields
    contain no [id] key, starting from a collection whose ids are pairwise
    distinct, and with [nanoid()] results that are pairwise distinct and
    different from the ids already in the collection, the ids of the
    resulting collection are pairwise distinct. *)
Theorem addTasks_ids_distinct (calls : list (string * task)) tasks :
  NoDup (ids tasks) →
  NoDup (calls.*1) →
  Forall (λ c, c.2 !! "id" = None) calls →
  Forall (λ c, VStr c.1 ∉ ids tasks) calls →
  NoDup (ids (addTasks calls tasks)).
Proof.
  revert tasks. induction calls as [|[fresh data] calls IH]; intros tasks Hnd Hfr Hno Hnew.
  - exact Hnd.
  - simpl in *. apply NoDup_cons in Hfr as [Hfresh Hfr].
    apply Forall_cons in Hno as [Hdata Hno].
    apply Forall_cons in Hnew as [Hout Hnew]. simpl in *.
    apply IH; [|exact Hfr|exact Hno|].
    + rewrite ids_addTask_no_id by exact Hdata. by apply NoDup_cons.
    + rewrite ids_addTask_no_id by exact Hdata.
      apply Forall_forall. intros [f d] Hin. simpl.
      rewrite Forall_forall in Hnew. specialize (Hnew _ Hin). simpl in Hnew.
      rewrite not_elem_of_cons. split; [|exact Hnew].
      intros Heq. injection Heq as ->. apply Hfresh.
      apply list_elem_of_fmap. by exists (fresh, d).
Qed.

Lemma addTasks_ids_distinct_witness :
  let calls : list (string * task) :=
    [("V1StGXR8", {[ "title" := VStr "A" ]}); ("Z5jdHi6B", {[ "title" := VStr "B" ]})] in
  let tasks : list task := [ {[ "id" := VStr "k0"; "title" := VStr "C" ]} ] in
  NoDup (ids (addTasks calls tasks)).
Proof.
  apply addTasks_ids_distinct.
  - vm_compute. apply NoDup_singleton.
  - vm_compute. apply NoDup_cons. split; [|apply NoDup_singleton].
    intros H. apply list_elem_of_singleton in H. discriminate.
  - repeat constructor.
  - repeat constructor; vm_compute; intros H;
      apply list_elem_of_singleton in H; discriminate.
Defined.

(** ** The status invariant *)

Section StatusInvariant.

Lemma statusOk_lookup (t : task) :
  statusOk t ↔
  t !! "status" = Some (VStr "Pending") ∨ t !! "status" = Some (VStr "Completed").
Proof.
  unfold statusOk, get.
  destruct (t !! "status") as [v|]; simpl; split; intros [H|H];
    first [ left; congruence | right; congruence | discriminate ].
Qed.

Lemma statusOk_initialTasks nanoid : Forall statusOk (initialTasks nanoid).
Proof.
  unfold initialTasks. repeat constructor; unfold statusOk;
    first [ left; reflexivity | right; reflexivity ].
Qed.

Lemma statusOk_newTask fresh (taskData : task) :
  statusFieldOk taskData → statusOk (newTask fresh taskData).
Proof.
  intros [H|[H|H]]; apply statusOk_lookup.
  - left. by rewrite newTask_default.
  - left. by apply newTask_fields.
  - right. by apply newTask_fields.
Qed.

Lemma statusOk_merge (updates t : task) :
  statusFieldOk updates → statusOk t → statusOk (updates ∪ t).
Proof.
  intros [H|[H|H]] Ht.
  - unfold statusOk in *. by rewrite get_union_r.
  - left. by apply get_union_l.
  - right. by apply get_union_l.
Qed.

Lemma statusOk_flip (t : task) :
  statusOk (<["status" := VStr (flipStatus t)]> t).
Proof.
  unfold statusOk, flipStatus. rewrite get_insert_eq.
  destruct (value_is (get t "status") "Completed"); [by left | by right].
Qed.

Lemma toggleSubtaskIn_status taskId subtaskId (t t' : task) :
  toggleSubtaskIn taskId subtaskId t = Some t' →
  get t' "status" = get t "status".
Proof.
  unfold toggleSubtaskIn. destruct (has_id t taskId); simpl.
  - destruct (toggleSubs subtaskId (get t "subtasks")) as [subs|]; simpl;
      [|discriminate].
    intros [= <-]. by apply get_insert_ne.
  - by intros [= <-].
Qed.

Lemma statusOk_addTask fresh taskData tasks :
  statusFieldOk taskData → Forall statusOk tasks →
  Forall statusOk (addTask fresh taskData tasks).
Proof. intros H Hinv. constructor; [by apply statusOk_newTask | exact Hinv]. Qed.

Lemma statusOk_updateTask id updates tasks :
  statusFieldOk updates → Forall statusOk tasks →
  Forall statusOk (updateTask id updates tasks).
Proof.
  intros H Hinv. unfold updateTask.
  induction Hinv as [|t l Ht _ IH]; simpl; constructor; [|exact IH].
  destruct (has_id t id); [by apply statusOk_merge | exact Ht].
Qed.

Lemma statusOk_deleteTask id tasks :
  Forall statusOk tasks → Forall statusOk (deleteTask id tasks).
Proof.
  intros Hinv. unfold deleteTask.
  induction Hinv as [|t l Ht _ IH]; simpl; [constructor|].
  destruct (negb (has_id t id)); [by constructor | exact IH].
Qed.

Lemma statusOk_toggleStatus id tasks :
  Forall statusOk tasks → Forall statusOk (toggleStatus id tasks).
Proof.
  intros Hinv. unfold toggleStatus.
  induction Hinv as [|t l Ht _ IH]; simpl; constructor; [|exact IH].
  destruct (has_id t id); [apply statusOk_flip | exact Ht].
Qed.

Lemma statusOk_toggleSubtask taskId subtaskId tasks tasks' :
  toggleSubtask taskId subtaskId tasks = Some tasks' →
  Forall statusOk tasks → Forall statusOk tasks'.
Proof.
  unfold toggleSubtask. intros H%mapM_Some_1 Hinv.
  induction H as [|t t' l l' Ht _ IH]; [constructor|].
  apply Forall_cons in Hinv as [Hok Hinv].
  constructor; [|by apply IH].
  unfold statusOk. by rewrite (toggleSubtaskIn_status _ _ _ _ Ht).
Qed.

End StatusInvariant.

#[local] Hint Resolve statusOk_initialTasks statusOk_addTask
  statusOk_updateTask statusOk_deleteTask statusOk_toggleStatus
  statusOk_toggleSubtask : store.

(** C3, as stated, fails: [updateTask] and [addTask] store whatever
    [status] the caller passes. *)
Lemma status_invariant_broken :
  let tasks : list task := [ {[ "id" := VStr "a"; "status" := VStr "Pending" ]} ] in
  let archived : task := {[ "status" := VStr "Archived" ]} in
  Forall statusOk tasks ∧
  ¬ Forall statusOk (dispatch (UpdateTask "a" archived) tasks) ∧
  ¬ Forall statusOk (dispatch (AddTask "V1StGXR8" archived) tasks).
Proof.
  simpl. split; [|split].
  - constructor; [left; reflexivity | constructor].
  - intros H. apply Forall_inv in H. destruct H as [H|H]; vm_compute in H; discriminate.
  - intros H. apply Forall_inv in H. destruct H as [H|H]; vm_compute in H; discriminate.
Qed.

(** C3, amended.  "Every task's status is Pending or Completed" holds of
    the initial collection and is preserved by [deleteTask], [toggleStatus]
    and [toggleSubtask] for every argument, and by [addTask] and
    [updateTask] for every fields argument that has no [status] key or
    whose [status] is Pending or Completed. *)
Theorem status_invariant :
  (∀ nanoid, Forall statusOk (initialTasks nanoid)) ∧
  ∀ a tasks, actionStatusOk a → Forall statusOk tasks →
             Forall statusOk (dispatch a tasks).
Proof.
  split; [auto with store|].
  intros [fresh data|id updates|id|id|tid sid] tasks Ha Hinv; simpl in *;
    auto with store.
  destruct (toggleSubtask tid sid tasks) as [tasks'|] eqn:E; simpl;
    eauto with store.
Qed.

Lemma status_invariant_witness :
  let nanoid : nat → string := λ n, String (ascii_of_nat (97 + n)) "" in
  Forall statusOk
    (dispatch (ToggleStatus (nanoid 0%nat))
       (dispatch (UpdateTask (nanoid 3%nat) {[ "status" := VStr "Completed" ]})
          (initialTasks nanoid))).
Proof.
  intros nanoid.
  destruct status_invariant as [Hinit Hstep].
  apply Hstep; [exact I|].
  apply Hstep; [right; right; reflexivity|].
  apply Hinit.
Defined.

(** ** Update and delete *)

(** C5.  [updateTask(id, {field: v})] keeps the length and the order of
    the collection; a task whose id is not [id] is unchanged; a task whose
    id is [id] gets [v] under [field] and keeps every other property. *)
Theorem updateTask_targeted id field v (tasks : list task) :
  length (updateTask id {[ field := v ]} tasks) = length tasks ∧
  ∀ i (t : task), tasks !! i = Some t →
    ∃ t' : task, updateTask id {[ field := v ]} tasks !! i = Some t' ∧
      (has_id t id = false → t' = t) ∧
      (has_id t id = true →
         t' !! field = Some v ∧ ∀ k, k ≠ field → t' !! k = t !! k).
Proof.
  unfold updateTask. split; [apply length_map|].
  intros i t Hi.
  exists (if has_id t id then {[ field := v ]} ∪ t else t).
  split; [by rewrite list_lookup_fmap, Hi|].
  destruct (has_id t id); split; try discriminate; try reflexivity.
  intros _. rewrite <- insert_union_singleton_l. split.
  - apply lookup_insert_eq.
  - intros k Hk. by apply lookup_insert_ne.
Qed.

Lemma updateTask_targeted_witness :
  let a : task := {[ "id" := VStr "a"; "title" := VStr "A"; "priority" := VStr "Low" ]} in
  let b : task := {[ "id" := VStr "b"; "title" := VStr "B"; "priority" := VStr "Low" ]} in
  [a; b] !! 1%nat = Some b ∧
  ∃ t' : task,
    updateTask "b" {[ "priority" := VStr "High" ]} [a; b] !! 1%nat = Some t' ∧
    (has_id b "b" = false → t' = b) ∧
    (has_id b "b" = true →
       t' !! "priority" = Some (VStr "High") ∧
       ∀ k, k ≠ "priority" → t' !! k = b !! k).
Proof.
  intros a b. split; [reflexivity|].
  apply (proj2 (updateTask_targeted "b" "priority" (VStr "High") [a; b]) 1%nat b).
  reflexivity.
Defined.

Lemma deleteTask_count id tasks :
  (length (deleteTask id tasks) + length (List.filter (λ t, has_id t id) tasks)
   = length tasks)%nat.
Proof.
  unfold deleteTask. induction tasks as [|t l IH]; simpl; [reflexivity|].
  destruct (has_id t id); simpl; lia.
Qed.

Lemma idOccurs_false id tasks :
  idOccurs id tasks = false ↔ Forall (λ t, has_id t id = false) tasks.
Proof.
  unfold idOccurs. induction tasks as [|t l IH]; simpl.
  - split; [constructor | reflexivity].
  - rewrite orb_false_iff, IH, Forall_cons. reflexivity.
Qed.

Lemma idOccurs_ids id tasks : idOccurs id tasks = true ↔ VStr id ∈ ids tasks.
Proof.
  unfold idOccurs, ids. induction tasks as [|t l IH]; simpl.
  - split; [discriminate | intros H; inversion H].
  - rewrite orb_true_iff, IH, elem_of_cons, has_id_true.
    split; (intros [H|H]; [left; congruence | by right]).
Qed.

Lemma filter_absent id tasks :
  idOccurs id tasks = false → List.filter (λ t, has_id t id) tasks = [].
Proof.
  rewrite idOccurs_false. induction 1 as [|t l Ht _ IH]; simpl; [reflexivity|].
  by rewrite Ht.
Qed.

Lemma filter_unique id tasks :
  NoDup (ids tasks) → (length (List.filter (λ t, has_id t id) tasks) ≤ 1)%nat.
Proof.
  induction tasks as [|t l IH]; simpl; [lia|].
  intros [Hnotin Hnd]%NoDup_cons.
  destruct (has_id t id) eqn:E; [|by apply IH].
  apply has_id_true in E. rewrite E in Hnotin.
  rewrite filter_absent; [simpl; lia|].
  destruct (idOccurs id l) eqn:Ho; [|reflexivity].
  by apply idOccurs_ids in Ho.
Qed.

(** C6, as stated, fails: [deleteTask] removes every task with the id, and
    the store can hold two (here after two [addTask] calls that pass the
    same id). *)
Lemma deleteTask_removes_more_than_one :
  let fields : task := {[ "id" := VStr "x"; "title" := VStr "X" ]} in
  let tasks := addTask "Z5jdHi6B" fields (addTask "V1StGXR8" fields []) in
  idOccurs "x" tasks = true ∧
  length tasks = 2%nat ∧
  length (deleteTask "x" tasks) = 0%nat ∧
  length (deleteTask "x" tasks) ≠ (length tasks - 1)%nat.
Proof. simpl. repeat split; try reflexivity. vm_compute. discriminate. Qed.

(** C6, amended.  [deleteTask(id)] shortens the collection by the number
    of tasks that have that id: by nothing if no task has it, and by
    exactly one if some task has it and the ids of the collection are
    pairwise distinct. *)
Theorem deleteTask_length id tasks :
  (length (deleteTask id tasks) + length (List.filter (λ t, has_id t id) tasks)
   = length tasks)%nat ∧
  (idOccurs id tasks = false → length (deleteTask id tasks) = length tasks) ∧
  (NoDup (ids tasks) → idOccurs id tasks = true →
   (length (deleteTask id tasks) + 1 = length tasks)%nat).
Proof.
  pose proof (deleteTask_count id tasks) as Hc.
  split; [exact Hc|]. split.
  - intros H. rewrite (filter_absent _ _ H) in Hc. simpl in Hc. lia.
  - intros Hnd Ho. pose proof (filter_unique id tasks Hnd) as Hle.
    assert (length (List.filter (λ t, has_id t id) tasks) ≠ 0%nat); [|lia].
    intros Hz. apply length_zero_iff_nil in Hz.
    unfold idOccurs in Ho. apply existsb_exists in Ho as (t & Hin & Ht).
    assert (In t (List.filter (λ t, has_id t id) tasks)) as Hf
      by (apply filter_In; by split).
    rewrite Hz in Hf. destruct Hf.
Qed.

Lemma deleteTask_length_witness :
  let nanoid : nat → string := λ n, String (ascii_of_nat (97 + n)) "" in
  NoDup (ids (initialTasks nanoid)) ∧
  idOccurs "d" (initialTasks nanoid) = true ∧
  (length (deleteTask "d" (initialTasks nanoid)) + 1
   = length (initialTasks nanoid))%nat ∧
  idOccurs "zz" (initialTasks nanoid) = false ∧
  length (deleteTask "zz" (initialTasks nanoid)) = length (initialTasks nanoid).
Proof.
  intros nanoid.
  assert (NoDup (ids (initialTasks nanoid))) as Hnd.
  { vm_compute. repeat (apply NoDup_cons; split);
      [ intros H; repeat (apply elem_of_cons in H as [H|H]; [discriminate|]);
        inversion H ..
      | apply NoDup_nil_2 ]. }
  split; [exact Hnd|]. split; [reflexivity|]. split.
  - apply (proj2 (proj2 (deleteTask_length "d" (initialTasks nanoid))) Hnd).
    reflexivity.
  - split; [reflexivity|].
    apply (proj1 (proj2 (deleteTask_length "zz" (initialTasks nanoid)))).
    reflexivity.
Defined.

(** ** Unknown ids *)

Section UnknownId.

Lemma map_absent (f : task → task) id tasks :
  idOccurs id tasks = false →
  map (λ t, if has_id t id then f t else t) tasks = tasks.
Proof.
  rewrite idOccurs_false. induction 1 as [|t l Ht _ IH]; simpl; [reflexivity|].
  by rewrite Ht, IH.
Qed.

Lemma updateTask_unknown id updates tasks :
  idOccurs id tasks = false → updateTask id updates tasks = tasks.
Proof. apply (map_absent (λ t, updates ∪ t)). Qed.

Lemma toggleStatus_unknown id tasks :
  idOccurs id tasks = false → toggleStatus id tasks = tasks.
Proof. apply (map_absent (λ t, <["status" := VStr (flipStatus t)]> t)). Qed.

Lemma deleteTask_unknown id tasks :
  idOccurs id tasks = false → deleteTask id tasks = tasks.
Proof.
  rewrite idOccurs_false. unfold deleteTask.
  induction 1 as [|t l Ht _ IH]; simpl; [reflexivity|].
  by rewrite Ht, IH.
Qed.

Lemma toggleSub_other subtaskId e :
  readable e → sub_has_id e subtaskId = false →
  toggleSub subtaskId e = Some e.
Proof.
  unfold toggleSub, sub_has_id.
  destruct e as [[| |b|s]|o]; simpl; try contradiction; try reflexivity.
  intros _ ->. reflexivity.
Qed.

Lemma toggleSubs_other subtaskId a :
  Forall readable a →
  existsb (λ e, sub_has_id e subtaskId) a = false →
  mapM (toggleSub subtaskId) a = Some a.
Proof.
  intros Hr He. apply mapM_Some_2.
  induction Hr as [|e l Hre _ IH]; [constructor|].
  simpl in He. apply orb_false_iff in He as [He1 He2].
  constructor; [by apply toggleSub_other | by apply IH].
Qed.

Lemma toggleSubtaskIn_other taskId subtaskId (t : task) :
  (has_id t taskId = true → subtasksArray t) →
  has_id t taskId && existsb (λ e, sub_has_id e subtaskId) (subtasksOf t) = false →
  toggleSubtaskIn taskId subtaskId t = Some t.
Proof.
  unfold toggleSubtaskIn. destruct (has_id t taskId); simpl; [|reflexivity].
  intros Harr He. destruct (Harr eq_refl) as (a & Ha & Hr).
  unfold subtasksOf in He. rewrite (get_lookup _ _ _ Ha) in *. simpl.
  rewrite (toggleSubs_other _ _ Hr He). simpl. f_equal. by apply insert_id.
Qed.

Lemma toggleSubtask_unknown_pair taskId subtaskId (tasks : list task) :
  pairOccurs taskId subtaskId tasks = false →
  (∀ t, t ∈ tasks → has_id t taskId = true → subtasksArray t) →
  toggleSubtask taskId subtaskId tasks = Some tasks.
Proof.
  unfold pairOccurs, toggleSubtask. intros Hp Harr. apply mapM_Some_2.
  induction tasks as [|t l IH]; [constructor|].
  simpl in Hp. apply orb_false_iff in Hp as [Hp1 Hp2].
  constructor.
  - apply toggleSubtaskIn_other; [|exact Hp1]. apply Harr. left.
  - apply IH; [exact Hp2|]. intros t' Hin. apply Harr. by right.
Qed.

(** With an unknown task id nothing is read from any task. *)
Lemma toggleSubtask_unknown_task taskId subtaskId (tasks : list task) :
  idOccurs taskId tasks = false →
  toggleSubtask taskId subtaskId tasks = Some tasks.
Proof.
  rewrite idOccurs_false. unfold toggleSubtask. intros H. apply mapM_Some_2.
  induction H as [|t l Ht _ IH]; constructor; [|exact IH].
  unfold toggleSubtaskIn. by rewrite Ht.
Qed.

End UnknownId.

(** C4, as stated, fails for [toggleSubtask] with a known task and an
    unknown subtask: a [subtasks] that is [null] becomes [[]], and a
    [subtasks] that is a non-empty string has no [map], so that the
    updater throws. *)
Lemma toggleSubtask_unknown_subtask_not_noop :
  let tasks := addTask "V1StGXR8" {[ "title" := VStr "X"; "subtasks" := VPrim PNull ]} [] in
  let tasks' := addTask "Z5jdHi6B" {[ "title" := VStr "Y"; "subtasks" := VStr "none" ]} [] in
  (pairOccurs "V1StGXR8" "s1" tasks = false ∧
   map (λ t, get t "subtasks") tasks = [VPrim PNull] ∧
   (map (λ t, get t "subtasks") <$> toggleSubtask "V1StGXR8" "s1" tasks)
     = Some [VArr []] ∧
   toggleSubtask "V1StGXR8" "s1" tasks ≠ Some tasks) ∧
  (pairOccurs "Z5jdHi6B" "s1" tasks' = false ∧
   toggleSubtask "Z5jdHi6B" "s1" tasks' = None).
Proof.
  simpl. repeat split; try reflexivity.
  intros H.
  apply (f_equal (fmap (map (λ t : task, get t "subtasks")))) in H.
  vm_compute in H. discriminate.
Qed.

(** C4, amended.  For every collection and every id that no task has,
    [updateTask], [deleteTask] and [toggleStatus] return the collection
    unchanged.  For every pair of ids such that no task with the first id
    has a subtask with the second, [toggleSubtask] returns the collection
    unchanged and raises no error, provided the [subtasks] of every task
    with the first id is an array with no [null] or [undefined] element. *)
Theorem unknown_id_noop (tasks : list task) :
  (∀ id updates, idOccurs id tasks = false →
     updateTask id updates tasks = tasks ∧
     deleteTask id tasks = tasks ∧
     toggleStatus id tasks = tasks) ∧
  (∀ taskId subtaskId,
     pairOccurs taskId subtaskId tasks = false →
     (∀ t, t ∈ tasks → has_id t taskId = true → subtasksArray t) →
     toggleSubtask taskId subtaskId tasks = Some tasks).
Proof.
  split.
  - intros id updates H. split; [|split].
    + by apply updateTask_unknown.
    + by apply deleteTask_unknown.
    + by apply toggleStatus_unknown.
  - intros taskId subtaskId. apply toggleSubtask_unknown_pair.
Qed.

Lemma subtasksArray_initialTasks nanoid t :
  t ∈ initialTasks nanoid → subtasksArray t.
Proof.
  unfold initialTasks. intros H.
  split_elem H;
    [ eexists; split; [reflexivity | repeat constructor] .. | inversion H ].
Qed.

Lemma unknown_id_noop_witness :
  let nanoid : nat → string := λ n, String (ascii_of_nat (97 + n)) "" in
  let tasks := initialTasks nanoid in
  (idOccurs "zz" tasks = false ∧
   updateTask "zz" {[ "title" := VStr "T" ]} tasks = tasks ∧
   deleteTask "zz" tasks = tasks ∧
   toggleStatus "zz" tasks = tasks) ∧
  (pairOccurs "a" "zz" tasks = false ∧
   toggleSubtask "a" "zz" tasks = Some tasks).
Proof.
  intros nanoid tasks.
  destruct (unknown_id_noop tasks) as [H1 H2].
  split.
  - split; [reflexivity|]. apply H1. reflexivity.
  - split; [reflexivity|]. apply H2; [reflexivity|].
    intros t Hin _. by apply (subtasksArray_initialTasks nanoid).
Defined.

(** ** Toggling twice *)

Section ToggleTwice.

Lemma has_id_insert_status (t : task) v id :
  has_id (<["status" := v]> t) id = has_id t id.
Proof. unfold has_id. by rewrite get_insert_ne. Qed.

Lemma has_id_insert_subtasks (t : task) v id :
  has_id (<["subtasks" := v]> t) id = has_id t id.
Proof. unfold has_id. by rewrite get_insert_ne. Qed.

Lemma flip_twice (t : task) :
  statusOk t →
  <["status" := VStr (flipStatus (<["status" := VStr (flipStatus t)]> t))]>
    (<["status" := VStr (flipStatus t)]> t) = t.
Proof.
  intros H. rewrite insert_insert_eq.
  apply statusOk_lookup in H. apply insert_id.
  unfold flipStatus at 1. rewrite get_insert_eq. unfold flipStatus.
  destruct H as [H|H]; rewrite (get_lookup _ _ _ H); exact H.
Qed.

Lemma toggleStatus_twice id (tasks : list task) :
  (∀ t, t ∈ tasks → has_id t id = true → statusOk t) →
  toggleStatus id (toggleStatus id tasks) = tasks.
Proof.
  unfold toggleStatus. induction tasks as [|t l IH]; intros H; simpl;
    [reflexivity|].
  rewrite IH by (intros t' Hin; apply H; by right). f_equal.
  destruct (has_id t id) eqn:E.
  - rewrite has_id_insert_status, E. apply flip_twice, H; [left | exact E].
  - by rewrite E.
Qed.

Lemma toggleSub_twice subtaskId e e' :
  toggleSub subtaskId e = Some e' →
  (sub_has_id e subtaskId = true → isBool (doneOf e)) →
  toggleSub subtaskId e' = Some e.
Proof.
  unfold toggleSub, sub_has_id, doneOf.
  destruct e as [[| |b|s]|o]; simpl; try discriminate;
    try (intros [= <-] _; reflexivity).
  destruct (prim_is (default PUndefined (o !! "id")) subtaskId) eqn:E;
    simpl; intros [= <-] Hb; simpl.
  - rewrite lookup_insert_ne by discriminate. rewrite E. simpl.
    rewrite lookup_insert_eq. simpl. rewrite insert_insert_eq.
    destruct (Hb eq_refl) as [b Hd]. do 2 f_equal. apply insert_id.
    destruct (o !! "done") as [d|]; simpl in *; [|discriminate].
    subst d. simpl. by rewrite negb_involutive.
  - by rewrite E.
Qed.

Lemma toggleSubs_twice subtaskId a a' :
  mapM (toggleSub subtaskId) a = Some a' →
  (∀ e, e ∈ a → sub_has_id e subtaskId = true → isBool (doneOf e)) →
  mapM (toggleSub subtaskId) a' = Some a.
Proof.
  intros H%mapM_Some_1 Hb. apply mapM_Some_2.
  induction H as [|e e' l l' He _ IH]; constructor.
  - eapply toggleSub_twice; [exact He|]. apply Hb. left.
  - apply IH. intros e0 Hin. apply Hb. by right.
Qed.

Lemma toggleSubtaskIn_twice taskId subtaskId (t t' : task) :
  toggleSubtaskIn taskId subtaskId t = Some t' →
  (has_id t taskId = true →
   ∀ e, e ∈ subtasksOf t → sub_has_id e subtaskId = true → isBool (doneOf e)) →
  ∃ t'', toggleSubtaskIn taskId subtaskId t' = Some t'' ∧
         doneFlags t'' = doneFlags t.
Proof.
  unfold toggleSubtaskIn. destruct (has_id t taskId) eqn:E; simpl.
  - intros H Hb. specialize (Hb eq_refl).
    unfold doneFlags, subtasksOf in *.
    destruct (get t "subtasks") as [p|a] eqn:Hs; simpl in H.
    + destruct (truthy_prim p); [discriminate|]. simpl in H.
      injection H as <-. rewrite has_id_insert_subtasks, E. simpl.
      rewrite get_insert_eq. simpl. eexists. split; [reflexivity|].
      by rewrite get_insert_eq.
    + destruct (mapM (toggleSub subtaskId) a) as [a'|] eqn:Ha; [|discriminate].
      simpl in H. injection H as <-.
      rewrite has_id_insert_subtasks, E. simpl. rewrite get_insert_eq. simpl.
      rewrite (toggleSubs_twice _ _ _ Ha Hb). simpl.
      eexists. split; [reflexivity|]. by rewrite get_insert_eq.
  - intros [= <-] _. exists t. by rewrite E.
Qed.

Lemma toggleSubtask_twice taskId subtaskId (tasks tasks1 : list task) :
  toggleSubtask taskId subtaskId tasks = Some tasks1 →
  (∀ t e, t ∈ tasks → has_id t taskId = true → e ∈ subtasksOf t →
          sub_has_id e subtaskId = true → isBool (doneOf e)) →
  ∃ tasks2, toggleSubtask taskId subtaskId tasks1 = Some tasks2 ∧
            map doneFlags tasks2 = map doneFlags tasks.
Proof.
  unfold toggleSubtask. intros H%mapM_Some_1 Hb.
  induction H as [|t t' l l' Ht _ IH].
  - exists []. split; reflexivity.
  - destruct IH as (l2 & Hl2 & Hflags).
    { intros t0 e Hin. apply Hb. by right. }
    destruct (toggleSubtaskIn_twice _ _ _ _ Ht) as (t'' & Ht'' & Hf).
    { intros Hid e. apply Hb; [left | exact Hid]. }
    exists (t'' :: l2). split.
    + apply mapM_Some_2. constructor; [exact Ht''|by apply mapM_Some_1].
    + simpl. by rewrite Hf, Hflags.
Qed.

End ToggleTwice.

(** C7, as stated, fails.  A status other than the two (which [addTask]
    stores when the caller passes it) becomes [Completed] and then
    [Pending]; a [done] flag that is not a boolean (here a subtask created
    without one) becomes [true] and then [false]. *)
Lemma toggle_twice_not_identity :
  let tasks := addTask "V1StGXR8" {[ "title" := VStr "X"; "status" := VStr "Archived" ]} [] in
  let sub : elem := EObj {[ "id" := PStr "s1"; "text" := PStr "step" ]} in
  let tasks' := addTask "Z5jdHi6B" {[ "title" := VStr "Y"; "subtasks" := VArr [sub] ]} [] in
  (map (λ t, get t "status") tasks = [VStr "Archived"] ∧
   map (λ t, get t "status")
       (dispatch (ToggleStatus "V1StGXR8") (dispatch (ToggleStatus "V1StGXR8") tasks))
     = [VStr "Pending"]) ∧
  (map doneFlags tasks' = [[PUndefined]] ∧
   map doneFlags
       (dispatch (ToggleSubtask "Z5jdHi6B" "s1")
          (dispatch (ToggleSubtask "Z5jdHi6B" "s1") tasks'))
     = [[PBool false]]).
Proof. simpl. repeat split; reflexivity. Qed.

(** C7, amended.  Applying [toggleStatus(id)] twice returns the collection
    it started from, hence every status, provided every task with that id
    has status Pending or Completed.  Applying
    [toggleSubtask(taskId, subtaskId)] twice restores the [done] flag of
    every subtask, provided the [done] flag of every subtask with id
    [subtaskId] of a task with id [taskId] is a boolean. *)
Theorem toggle_twice (tasks : list task) :
  (∀ id,
     (∀ t, t ∈ tasks → has_id t id = true → statusOk t) →
     dispatch (ToggleStatus id) (dispatch (ToggleStatus id) tasks) = tasks) ∧
  (∀ taskId subtaskId,
     (∀ t e, t ∈ tasks → has_id t taskId = true → e ∈ subtasksOf t →
             sub_has_id e subtaskId = true → isBool (doneOf e)) →
     map doneFlags
         (dispatch (ToggleSubtask taskId subtaskId)
            (dispatch (ToggleSubtask taskId subtaskId) tasks))
       = map doneFlags tasks).
Proof.
  split.
  - intros id H. simpl. by apply toggleStatus_twice.
  - intros taskId subtaskId H. simpl.
    destruct (toggleSubtask taskId subtaskId tasks) as [tasks1|] eqn:E; simpl.
    + destruct (toggleSubtask_twice _ _ _ _ E H) as (tasks2 & -> & Hf).
      exact Hf.
    + by rewrite E.
Qed.

Lemma statusOk_mkTask_elem nanoid t : t ∈ initialTasks nanoid → statusOk t.
Proof.
  intros H. pose proof (statusOk_initialTasks nanoid) as Hall.
  rewrite Forall_forall in Hall. by apply Hall.
Qed.

Lemma doneBool_initialTasks nanoid t e :
  t ∈ initialTasks nanoid → e ∈ subtasksOf t → isBool (doneOf e).
Proof.
  unfold initialTasks. intros H.
  split_elem H; [..|inversion H];
    intros He; vm_compute in He;
    split_elem He; try (by inversion He);
    eexists; reflexivity.
Qed.

Lemma toggle_twice_witness :
  let nanoid : nat → string := λ n, String (ascii_of_nat (97 + n)) "" in
  let tasks := initialTasks nanoid in
  dispatch (ToggleStatus "a") (dispatch (ToggleStatus "a") tasks) = tasks ∧
  map doneFlags
      (dispatch (ToggleSubtask "a" "b") (dispatch (ToggleSubtask "a" "b") tasks))
    = map doneFlags tasks ∧
  map doneFlags (dispatch (ToggleSubtask "a" "b") tasks) ≠ map doneFlags tasks.
Proof.
  intros nanoid tasks.
  destruct (toggle_twice tasks) as [H1 H2].
  split; [|split].
  - apply H1. intros t Hin _. by apply (statusOk_mkTask_elem nanoid).
  - apply H2. intros t e Hin _ He _. by apply (doneBool_initialTasks nanoid t).
  - vm_compute. discriminate.
Defined.

(** ** The filter is conjunctive *)

Section Relax.

Variable h : host.

Lemma grows_refl b : grows b b.
Proof. by intros H. Qed.

Lemma grows_true b : grows b true.
Proof. by intros _. Qed.

Lemma grows_andb a a' b b' : grows a a' → grows b b' → grows (a && b) (a' && b').
Proof.
  unfold grows. intros Ha Hb [H1 H2]%andb_true_iff.
  by rewrite Ha, Hb.
Qed.

Lemma matchesSearch_relax d f t b :
  matchesSearch f t = Some b →
  ∃ b', matchesSearch (relax d f) t = Some b' ∧ grows b b'.
Proof.
  intros H. destruct d; simpl;
    try (exists b; split; [exact H | apply grows_refl]).
  exists true. split; [reflexivity | apply grows_true].
Qed.

Lemma matchesTag_relax d f t b :
  matchesTag f t = Some b →
  ∃ b', matchesTag (relax d f) t = Some b' ∧ grows b b'.
Proof.
  intros H. destruct d; simpl;
    try (exists b; split; [exact H | apply grows_refl]).
  exists true. split; [reflexivity | apply grows_true].
Qed.

Lemma matchesStatus_relax d f t :
  grows (matchesStatus f t) (matchesStatus (relax d f) t).
Proof. destruct d; first [apply grows_refl | apply grows_true]. Qed.

Lemma matchesPriority_relax d f t :
  grows (matchesPriority f t) (matchesPriority (relax d f) t).
Proof. destruct d; first [apply grows_refl | apply grows_true]. Qed.

Lemma matchesDate_relax d f t :
  grows (matchesDate h f t) (matchesDate h (relax d f) t).
Proof. destruct d; first [apply grows_refl | apply grows_true]. Qed.

Lemma matches_relax d f t b :
  matches h f t = Some b →
  ∃ b', matches h (relax d f) t = Some b' ∧ grows b b'.
Proof.
  unfold matches.
  destruct (matchesSearch f t) as [s|] eqn:Es; simpl; [|discriminate].
  destruct (matchesTag f t) as [g|] eqn:Eg; simpl; [|discriminate].
  intros [= <-].
  destruct (matchesSearch_relax d _ _ _ Es) as (s' & -> & Hs).
  destruct (matchesTag_relax d _ _ _ Eg) as (g' & -> & Hg).
  simpl. eexists. split; [reflexivity|].
  repeat apply grows_andb; auto using matchesStatus_relax,
    matchesPriority_relax, matchesDate_relax.
Qed.

Lemma filterM_grows {A} (p q : A → option bool) l r :
  (∀ x b, p x = Some b → ∃ b', q x = Some b' ∧ grows b b') →
  filterM p l = Some r →
  ∃ r', filterM q l = Some r' ∧ r `sublist_of` r'.
Proof.
  intros Hpq. revert r. induction l as [|x l IH]; simpl; intros r.
  - intros [= <-]. exists []. split; [reflexivity | constructor].
  - destruct (p x) as [b|] eqn:Ep; [|discriminate].
    destruct (filterM p l) as [r0|]; [|discriminate].
    intros [= <-].
    destruct (Hpq _ _ Ep) as (b' & -> & Hb).
    destruct (IH _ eq_refl) as (r' & -> & Hsub).
    eexists. split; [reflexivity|].
    destruct b.
    + rewrite (Hb eq_refl). by constructor.
    + destruct b'; [by constructor | exact Hsub].
Qed.

End Relax.

(** C8.  For a fixed collection, clock and filter on which the filter
    returns, setting any one of the five dimensions to its match-all value
    ([""] for search, ["all"] for the others) returns too, and the result
    contains the original result as a subsequence: every task of the
    original result is in it, and it is at least as long. *)
Theorem filter_relax_superset h f d (tasks r : list task) :
  filteredTasks h f tasks = Some r →
  ∃ r', filteredTasks h (relax d f) tasks = Some r' ∧
        r `sublist_of` r' ∧
        (∀ t, t ∈ r → t ∈ r') ∧
        (length r ≤ length r')%nat.
Proof.
  intros H.
  destruct (filterM_grows (matches h f) (matches h (relax d f)) tasks r)
    as (r' & Hr' & Hsub); [apply matches_relax | exact H |].
  exists r'. split; [exact Hr'|]. split; [exact Hsub|]. split.
  - intros t Ht. by eapply elem_of_sublist.
  - by apply sublist_length.
Qed.

Lemma filter_relax_superset_witness :
  let nanoid : nat → string := λ n, String (ascii_of_nat (97 + n)) "" in
  let tasks := initialTasks nanoid in
  let h := fixedHost 1763114400000 0 in
  let f := {| search := ""; status := "Pending"; priority := "all";
              tag := "all"; date := "all" |} in
  filteredTasks h f tasks = Some (take 2 tasks) ∧
  ∃ r', filteredTasks h (relax DStatus f) tasks = Some r' ∧
        take 2 tasks `sublist_of` r' ∧
        (∀ t, t ∈ take 2 tasks → t ∈ r') ∧
        (length (take 2 tasks) ≤ length r')%nat.
Proof.
  intros nanoid tasks h f.
  assert (filteredTasks h f tasks = Some (take 2 tasks)) as H
    by (vm_compute; reflexivity).
  split; [exact H|].
  exact (filter_relax_superset h f DStatus tasks (take 2 tasks) H).
Defined.

(** ** The week window *)

Section Week.

Lemma diffDays_lower x :
  Qle_bool 0 (inject_Z x / inject_Z msPerDay) = (0 <=? x).
Proof.
  change msPerDay with 86400000.
  unfold Qle_bool, Qdiv, Qmult, Qinv. simpl.
  apply eq_iff_eq_true. rewrite !Z.leb_le. lia.
Qed.

Lemma diffDays_upper x :
  Qle_bool (inject_Z x / inject_Z msPerDay) 7 = (x <=? 7 * msPerDay).
Proof.
  change msPerDay with 86400000.
  unfold Qle_bool, Qdiv, Qmult, Qinv. simpl.
  apply eq_iff_eq_true. rewrite !Z.leb_le. lia.
Qed.

(** What the ["week"] branch computes, on every host: the due date's
    local midnight is at most seven times 24 hours after today's. *)
Lemma matchesDate_week h f (t : task) :
  date f = "week" →
  matchesDate h f t = true ↔
  truthy (get t "dueDate") = false ∨
  ∃ d, newDate h (get t "dueDate") = Some d ∧
       0 ≤ setHours0 h d - setHours0 h (now h) ≤ 7 * msPerDay.
Proof.
  intros Hf. unfold matchesDate. rewrite Hf. simpl.
  destruct (truthy (get t "dueDate")); simpl; [|split; auto].
  destruct (newDate h (get t "dueDate")) as [d|]; simpl.
  - rewrite diffDays_lower, diffDays_upper, andb_true_iff, !Z.leb_le.
    split.
    + intros H. right. exists d. split; [reflexivity | exact H].
    + intros [H|(d' & [= <-] & H)]; [discriminate | exact H].
  - split; [discriminate|]. intros [H|(d' & H & _)]; discriminate.
Qed.

Lemma setHours0_fixed h offset c d :
  (∀ t b, LocalTZA h t b = offset) →
  setHours0 h d - setHours0 h c = (localDay h d - localDay h c) * msPerDay.
Proof. intros H. unfold setHours0. rewrite !H. lia. Qed.

(** On a host whose local time is a fixed offset from UTC, the ["week"]
    branch is the window of eight calendar days. *)
Lemma matchesDate_week_fixed_offset h offset f (t : task) :
  (∀ t b, LocalTZA h t b = offset) →
  date f = "week" →
  matchesDate h f t = true ↔ inWeekWindow h t.
Proof.
  intros Hoff Hf. rewrite (matchesDate_week h f t Hf). unfold inWeekWindow.
  assert (0 < msPerDay) as HD by reflexivity.
  split; (intros [H|(d & Hd & Hw)]; [by left | right; exists d; split; [exact Hd|]]).
  - rewrite (setHours0_fixed h offset _ _ Hoff) in Hw. nia.
  - rewrite (setHours0_fixed h offset _ _ Hoff). nia.
Qed.

End Week.

(** C9 at the end of summer time.  In central Europe at noon of
    2025-10-20, a task due on 2025-10-27 is due on day today + 7, inside
    the window of eight calendar days, and the ["week"] filter rejects it:
    the day of 2025-10-26 has 25 hours, so the two local midnights are 7
    days and one hour apart.  The ["today"] and ["overdue"] branches
    compare the midnights themselves and have no such gap. *)
Theorem week_window_summer_time_end :
  let h := cetHost 1760954400000 in
  let f := {| search := ""; status := "all"; priority := "all";
              tag := "all"; date := "week" |} in
  let t : task := {[ "id" := VStr "V1StGXR8"; "title" := VStr "X";
                     "dueDate" := VStr "2025-10-27" ]} in
  localDay h (now h) = daysFromCivil 2025 10 20 ∧
  (localDay h <$> newDate h (get t "dueDate")) = Some (daysFromCivil 2025 10 27) ∧
  inWeekWindow h t ∧
  (setHours0 h <$> newDate h (get t "dueDate"))
    = Some (setHours0 h (now h) + 7 * msPerDay + 3600000) ∧
  matchesDate h f t = false.
Proof.
  intros h f t.
  split; [reflexivity|]. split; [reflexivity|]. split; [|split; reflexivity].
  right. exists 1761523200000. split; [reflexivity|].
  vm_compute. split; discriminate.
Qed.


(** ** Scenarios of the specification *)

Section Scenarios.

Let nanoid : nat → string := λ n, String (ascii_of_nat (97 + n)) "".

(** The new task is the first element. *)
Lemma addTask_prepends fresh taskData tasks :
  head (addTask fresh taskData tasks) = Some (newTask fresh taskData) ∧
  tail (addTask fresh taskData tasks) = tasks.
Proof. split; reflexivity. Qed.

(** A task titled "Finish React homework" matches [react] and [REACT]. *)
Example search_is_case_insensitive :
  let t := hd ∅ (initialTasks nanoid) in
  matchesSearch {| search := "react"; status := "all"; priority := "all";
                   tag := "all"; date := "all" |} t = Some true ∧
  matchesSearch {| search := "REACT"; status := "all"; priority := "all";
                   tag := "all"; date := "all" |} t = Some true.
Proof. split; reflexivity. Qed.

(** A search on a task without a title throws. *)
Example search_without_title_throws :
  matchesSearch {| search := "x"; status := "all"; priority := "all";
                   tag := "all"; date := "all" |} (newTask "V1StGXR8" ∅) = None.
Proof. reflexivity. Qed.

(** [toggleSubtask] on a fresh task without subtasks changes nothing. *)
Example toggleSubtask_no_subtasks subtaskId :
  let tasks := addTask "V1StGXR8" {[ "title" := VStr "X" ]} [] in
  toggleSubtask "V1StGXR8" subtaskId tasks = Some tasks.
Proof.
  apply toggleSubtask_unknown_pair; [reflexivity|].
  intros t ->%list_elem_of_singleton _. exists []. split; [reflexivity|constructor].
Qed.

(** A task due today matches ["today"] and not ["overdue"], east of
    Greenwich; west of it the date-only string, read as UTC midnight, falls
    on the evening before. *)
Example due_today :
  let t : task := {[ "id" := VStr "V1StGXR8"; "title" := VStr "X";
                     "status" := VStr "Pending";
                     "dueDate" := VStr "2025-10-20" ]} in
  let today := {| search := ""; status := "all"; priority := "all";
                  tag := "all"; date := "today" |} in
  let overdue := {| search := ""; status := "all"; priority := "all";
                    tag := "all"; date := "overdue" |} in
  (matchesDate (cetHost 1760954400000) today t = true ∧
   matchesDate (cetHost 1760954400000) overdue t = false) ∧
  (matchesDate (fixedHost 1760954400000 (-18000000)) today t = false ∧
   matchesDate (fixedHost 1760954400000 (-18000000)) overdue t = true).
Proof. repeat split; reflexivity. Qed.

End Scenarios.

(** ** Further properties of the store actions *)

Section StoreFacts.

Lemma deleteTask_elem id t tasks :
  t ∈ deleteTask id tasks ↔ t ∈ tasks ∧ has_id t id = false.
Proof.
  unfold deleteTask. rewrite !list_elem_of_In, filter_In, negb_true_iff.
  reflexivity.
Qed.

Lemma deleteTask_sublist id tasks : deleteTask id tasks `sublist_of` tasks.
Proof.
  unfold deleteTask. induction tasks as [|t l IH]; simpl; [constructor|].
  destruct (negb (has_id t id)); by constructor.
Qed.

Lemma deleteTask_absent_after id tasks : idOccurs id (deleteTask id tasks) = false.
Proof.
  apply idOccurs_false, Forall_forall. intros t Ht.
  by apply deleteTask_elem in Ht as [_ Ht].
Qed.

Lemma findTask_None id tasks : findTask id tasks = None ↔ idOccurs id tasks = false.
Proof.
  unfold findTask, idOccurs. induction tasks as [|t l IH]; simpl; [done|].
  destruct (has_id t id); simpl; [split; discriminate | exact IH].
Qed.

Lemma findTask_Some id tasks t :
  findTask id tasks = Some t → t ∈ tasks ∧ has_id t id = true.
Proof.
  unfold findTask. intros H. apply find_some in H as [Hin Hid].
  split; [by apply list_elem_of_In | exact Hid].
Qed.

Lemma ids_toggleStatus id tasks : ids (toggleStatus id tasks) = ids tasks.
Proof.
  unfold ids, toggleStatus. rewrite map_map. apply map_ext. intros t.
  destruct (has_id t id); [by apply get_insert_ne | reflexivity].
Qed.

Lemma ids_updateTask id updates tasks :
  updates !! "id" = None → ids (updateTask id updates tasks) = ids tasks.
Proof.
  intros H. unfold ids, updateTask. rewrite map_map. apply map_ext. intros t.
  destruct (has_id t id); [by apply get_union_r | reflexivity].
Qed.

Lemma toggleSubtaskIn_id taskId subtaskId (t t' : task) :
  toggleSubtaskIn taskId subtaskId t = Some t' → get t' "id" = get t "id".
Proof.
  unfold toggleSubtaskIn. destruct (has_id t taskId); simpl.
  - destruct (toggleSubs subtaskId (get t "subtasks")); simpl; [|discriminate].
    intros [= <-]. by apply get_insert_ne.
  - by intros [= <-].
Qed.

Lemma ids_toggleSubtask taskId subtaskId tasks tasks' :
  toggleSubtask taskId subtaskId tasks = Some tasks' → ids tasks' = ids tasks.
Proof.
  unfold toggleSubtask. intros H%mapM_Some_1.
  induction H as [|t t' l l' Ht _ IH]; simpl; [reflexivity|].
  by rewrite IH, (toggleSubtaskIn_id _ _ _ _ Ht).
Qed.

Lemma ids_deleteTask_sublist id tasks :
  ids (deleteTask id tasks) `sublist_of` ids tasks.
Proof.
  unfold ids, deleteTask. induction tasks as [|t l IH]; simpl; [constructor|].
  destruct (negb (has_id t id)); simpl; by constructor.
Qed.

End StoreFacts.

(** X1.  After [deleteTask(id)] no task has the id, so that the pages'
    lookup finds nothing; the tasks that remain are the tasks with another
    id, in their order. *)
Theorem deleteTask_removes_all id tasks :
  idOccurs id (deleteTask id tasks) = false ∧
  findTask id (deleteTask id tasks) = None ∧
  deleteTask id tasks `sublist_of` tasks ∧
  ∀ t, t ∈ deleteTask id tasks ↔ t ∈ tasks ∧ has_id t id = false.
Proof.
  split; [apply deleteTask_absent_after|].
  split; [apply findTask_None, deleteTask_absent_after|].
  split; [apply deleteTask_sublist|].
  intros t. apply deleteTask_elem.
Qed.

(** X2.  The ids of a collection stay pairwise distinct under every action
    that does not bring in an id of its own: [deleteTask], [toggleStatus]
    and [toggleSubtask] always, [updateTask] when the updates have no [id]
    key, [addTask] when the fields have no [id] key and [nanoid()] returned
    an id that is not in use. *)
Theorem ids_distinct_invariant a tasks :
  keepsIds a tasks → NoDup (ids tasks) → NoDup (ids (dispatch a tasks)).
Proof.
  destruct a as [fresh data|id updates|id|id|tid sid]; intros Ha Hnd;
    cbn [dispatch keepsIds] in *.
  - destruct Ha as [Hdata Hfresh].
    rewrite ids_addTask_no_id by exact Hdata. by apply NoDup_cons.
  - by rewrite ids_updateTask.
  - eapply sublist_NoDup; [exact Hnd | apply ids_deleteTask_sublist].
  - by rewrite ids_toggleStatus.
  - destruct (toggleSubtask tid sid tasks) as [tasks'|] eqn:E; simpl;
      [by rewrite (ids_toggleSubtask _ _ _ _ E) | exact Hnd].
Qed.

Lemma ids_distinct_invariant_witness :
  let tasks : list task :=
    [ {[ "id" := VStr "a"; "title" := VStr "A" ]};
      {[ "id" := VStr "b"; "title" := VStr "B" ]} ] in
  NoDup (ids tasks) ∧
  NoDup (ids (dispatch (AddTask "c" {[ "title" := VStr "C" ]}) tasks)) ∧
  NoDup (ids (dispatch (UpdateTask "a" {[ "title" := VStr "Z" ]}) tasks)).
Proof.
  intros tasks.
  assert (NoDup (ids tasks)) as Hnd.
  { vm_compute. repeat (apply NoDup_cons; split);
      [ intros H; repeat (apply elem_of_cons in H as [H|H]; [discriminate|]);
        inversion H ..
      | apply NoDup_nil_2 ]. }
  split; [exact Hnd|]. split.
  - apply ids_distinct_invariant; [|exact Hnd]. split; [reflexivity|].
    vm_compute. intros H.
    repeat (apply elem_of_cons in H as [H|H]; [discriminate|]). inversion H.
  - apply ids_distinct_invariant; [reflexivity | exact Hnd].
Defined.

(** X3.  [toggleStatus(id)] keeps length and order, leaves the tasks with
    another id alone, and on a task with the id changes the status only:
    to Pending if it was Completed, to Completed from anything else, so
    that the status is one of the two afterwards whatever it was. *)
Theorem toggleStatus_targeted id (tasks : list task) :
  length (toggleStatus id tasks) = length tasks ∧
  ∀ i (t : task), tasks !! i = Some t →
    ∃ t' : task, toggleStatus id tasks !! i = Some t' ∧
      (has_id t id = false → t' = t) ∧
      (has_id t id = true →
         get t' "status" = VStr (if isCompleted t then "Pending" else "Completed") ∧
         statusOk t' ∧
         ∀ k, k ≠ "status" → t' !! k = t !! k).
Proof.
  unfold toggleStatus. split; [apply length_map|].
  intros i t Hi.
  exists (if has_id t id then <["status" := VStr (flipStatus t)]> t else t).
  split; [by rewrite list_lookup_fmap, Hi|].
  destruct (has_id t id); split; try discriminate; try reflexivity.
  intros _. split; [apply get_insert_eq|]. split; [apply statusOk_flip|].
  intros k Hk. by apply lookup_insert_ne.
Qed.

Lemma toggleStatus_targeted_witness :
  let a : task := {[ "id" := VStr "a"; "status" := VStr "Archived" ]} in
  ∃ t' : task, toggleStatus "a" [a] !! 0%nat = Some t' ∧
    get t' "status" = VStr "Completed" ∧ t' !! "id" = Some (VStr "a").
Proof.
  intros a.
  destruct (proj2 (toggleStatus_targeted "a" [a]) 0%nat a eq_refl)
    as (t' & Ht' & _ & H).
  destruct (H eq_refl) as (Hs & _ & Hk).
  exists t'. split; [exact Ht'|]. split; [exact Hs|].
  by rewrite Hk.
Defined.

Section SubtaskFrame.

Variable subtaskId : string.

Lemma toggleSub_frame e e' :
  toggleSub subtaskId e = Some e' → subToggled subtaskId e e'.
Proof.
  unfold toggleSub, subToggled, sub_has_id, doneOf.
  destruct e as [[| |b|s]|o]; simpl; try discriminate;
    try (intros [= <-]; split; [reflexivity | discriminate]).
  destruct (prim_is (default PUndefined (o !! "id")) subtaskId);
    intros [= <-]; split; try discriminate; try reflexivity.
  intros _. simpl. rewrite lookup_insert_eq. split; [reflexivity|].
  intros k Hk. by rewrite lookup_insert_ne.
Qed.

Lemma toggleSubs_frame v a' :
  toggleSubs subtaskId v = Some a' →
  Forall2 (subToggled subtaskId) (match v with VArr a => a | VPrim _ => [] end) a'.
Proof.
  destruct v as [p|a]; simpl.
  - destruct (truthy_prim p); [discriminate|]. intros [= <-]. constructor.
  - intros H%mapM_Some_1. eapply Forall2_impl; [exact H|].
    intros e e'. apply toggleSub_frame.
Qed.

Lemma toggleSub_is_Some e : is_Some (toggleSub subtaskId e) ↔ readable e.
Proof.
  unfold toggleSub, readable. destruct e as [[| |b|s]|o]; simpl.
  - split; [intros [? [=]] | contradiction].
  - split; [intros [? [=]] | contradiction].
  - split; [done | by eexists].
  - split; [done | by eexists].
  - destruct (prim_is _ _); (split; [done | by eexists]).
Qed.

Lemma toggleSubs_is_Some (t : task) :
  is_Some (toggleSubs subtaskId (get t "subtasks")) ↔ subtasksUsable t.
Proof.
  unfold subtasksUsable, toggleSubs. destruct (get t "subtasks") as [p|a].
  - destruct (truthy_prim p); split; try done; try (by eexists).
  - rewrite mapM_is_Some. apply Forall_proper; [|reflexivity].
    intros e. apply toggleSub_is_Some.
Qed.

End SubtaskFrame.

(** X4.  When [toggleSubtask(taskId, subtaskId)] returns, length and order
    are kept and the tasks with another id are untouched; in a task with
    the id only [subtasks] changes, the subtasks keep their number and
    order, and exactly those with id [subtaskId] get [done] replaced by
    the negation of its truthiness. *)
Theorem toggleSubtask_targeted taskId subtaskId (tasks r : list task) :
  toggleSubtask taskId subtaskId tasks = Some r →
  length r = length tasks ∧
  ∀ i (t : task), tasks !! i = Some t →
    ∃ t' : task, r !! i = Some t' ∧
      (has_id t taskId = false → t' = t) ∧
      (has_id t taskId = true →
         (∀ k, k ≠ "subtasks" → t' !! k = t !! k) ∧
         Forall2 (subToggled subtaskId) (subtasksOf t) (subtasksOf t')).
Proof.
  unfold toggleSubtask. intros H%mapM_Some_1.
  split; [symmetry; by eapply Forall2_length|].
  intros i t Hi.
  destruct (Forall2_lookup_l _ _ _ _ _ H Hi) as (t' & Hr & Ht).
  exists t'. split; [exact Hr|].
  unfold toggleSubtaskIn in Ht. destruct (has_id t taskId); simpl in Ht.
  - split; [discriminate|]. intros _.
    destruct (toggleSubs subtaskId (get t "subtasks")) as [a'|] eqn:E;
      simpl in Ht; [|discriminate].
    injection Ht as <-. split.
    + intros k Hk. by apply lookup_insert_ne.
    + apply toggleSubs_frame in E. unfold subtasksOf at 2.
      rewrite get_insert_eq. exact E.
  - injection Ht as <-. split; [reflexivity | discriminate].
Qed.

Lemma toggleSubtask_targeted_witness :
  let nanoid : nat → string := λ n, String (ascii_of_nat (97 + n)) "" in
  let tasks := initialTasks nanoid in
  ∃ r, toggleSubtask "a" "b" tasks = Some r ∧ length r = length tasks ∧
       map doneFlags r
         = [[PBool true; PBool false]; [PBool true; PBool false];
            [PBool true; PBool true]].
Proof.
  intros nanoid tasks.
  assert (∃ r, toggleSubtask "a" "b" tasks = Some r) as [r Hr]
    by (eexists; vm_compute; reflexivity).
  exists r. split; [exact Hr|].
  split; [exact (proj1 (toggleSubtask_targeted "a" "b" tasks r Hr))|].
  vm_compute in Hr. injection Hr as <-. vm_compute. reflexivity.
Defined.

(** X5.  [toggleSubtask(taskId, subtaskId)] throws exactly when some task
    with id [taskId] has a [subtasks] that is truthy and not an array, or
    an array that holds [null] or [undefined]; the subtask id plays no
    part. *)
Theorem toggleSubtask_returns taskId subtaskId (tasks : list task) :
  is_Some (toggleSubtask taskId subtaskId tasks) ↔
  ∀ t, t ∈ tasks → has_id t taskId = true → subtasksUsable t.
Proof.
  unfold toggleSubtask. rewrite mapM_is_Some, Forall_forall.
  apply forall_proper. intros t. apply forall_proper. intros _. simpl.
  unfold toggleSubtaskIn. destruct (has_id t taskId); simpl.
  - rewrite <- (toggleSubs_is_Some subtaskId).
    destruct (toggleSubs subtaskId (get t "subtasks")); simpl.
    + split; [by eexists | by eexists].
    + split; [intros [? [=]] | intros H; destruct (H eq_refl) as [? [=]]].
  - split; [discriminate | by eexists].
Qed.

Lemma has_id_union_no_id (updates t : task) id :
  updates !! "id" = None → has_id (updates ∪ t) id = has_id t id.
Proof. intros H. unfold has_id. by rewrite get_union_r. Qed.

Lemma has_id_other (t : task) id id' :
  has_id t id = true → id' ≠ id → has_id t id' = false.
Proof.
  intros H Hne. apply has_id_true in H. apply value_is_false.
  rewrite H. congruence.
Qed.

Lemma has_id_newTask fresh (taskData : task) id :
  taskData !! "id" = None →
  has_id (newTask fresh taskData) id = String.eqb fresh id.
Proof.
  intros H. unfold has_id.
  rewrite (get_lookup _ _ (VStr fresh)); [reflexivity|].
  by rewrite newTask_default.
Qed.

(** X6.  Two updates of the same id, the first of which leaves the id
    alone, amount to one update with the merged fields, the later fields
    winning; an update with no fields changes nothing. *)
Theorem updateTask_compose id (u1 u2 : task) (tasks : list task) :
  u1 !! "id" = None →
  updateTask id u2 (updateTask id u1 tasks) = updateTask id (u2 ∪ u1) tasks ∧
  updateTask id ∅ tasks = tasks.
Proof.
  intros H. unfold updateTask. split.
  - rewrite map_map. apply map_ext. intros t.
    destruct (has_id t id) eqn:E.
    + rewrite has_id_union_no_id, E by exact H. by rewrite (assoc_L (∪)).
    + by rewrite E.
  - rewrite <- (map_id tasks) at 2. apply map_ext. intros t.
    destruct (has_id t id); [apply (left_id_L ∅ (∪)) | reflexivity].
Qed.

Lemma updateTask_compose_witness :
  let tasks : list task :=
    [ {[ "id" := VStr "a"; "title" := VStr "A"; "priority" := VStr "Low" ]} ] in
  let u1 : task := {[ "title" := VStr "B"; "priority" := VStr "High" ]} in
  let u2 : task := {[ "title" := VStr "C" ]} in
  updateTask "a" u2 (updateTask "a" u1 tasks)
    = [ {[ "id" := VStr "a"; "title" := VStr "C"; "priority" := VStr "High" ]} ].
Proof.
  intros tasks u1 u2.
  rewrite (proj1 (updateTask_compose "a" u1 u2 tasks eq_refl)).
  vm_compute. reflexivity.
Defined.

(** X7.  Adding a task under a [nanoid()] result that is not in use, with
    fields that carry no [id], and then deleting that id gives back the
    collection. *)
Theorem deleteTask_addTask fresh (taskData : task) tasks :
  taskData !! "id" = None →
  idOccurs fresh tasks = false →
  deleteTask fresh (addTask fresh taskData tasks) = tasks.
Proof.
  intros Hdata Hfresh. unfold addTask, deleteTask. simpl.
  rewrite has_id_newTask, String.eqb_refl by exact Hdata. simpl.
  by apply deleteTask_unknown.
Qed.

Lemma deleteTask_addTask_witness :
  let nanoid : nat → string := λ n, String (ascii_of_nat (97 + n)) "" in
  let tasks := initialTasks nanoid in
  deleteTask "V1StGXR8" (addTask "V1StGXR8" {[ "title" := VStr "X" ]} tasks) = tasks.
Proof.
  intros nanoid tasks. apply deleteTask_addTask; reflexivity.
Defined.

(** X8.  The pages' lookup after a change.  After [addTask] with fields
    that carry no [id], the generated id finds the new task and every other
    id finds what it found before.  After [updateTask(id, updates)] with
    updates that carry no [id], the id finds the merged task and every
    other id finds what it found before. *)
Theorem findTask_after (taskData updates : task) fresh id tasks :
  (taskData !! "id" = None →
     findTask fresh (addTask fresh taskData tasks) = Some (newTask fresh taskData) ∧
     ∀ id', id' ≠ fresh →
       findTask id' (addTask fresh taskData tasks) = findTask id' tasks) ∧
  (updates !! "id" = None →
     findTask id (updateTask id updates tasks)
       = (λ t, updates ∪ t) <$> findTask id tasks ∧
     ∀ id', id' ≠ id →
       findTask id' (updateTask id updates tasks) = findTask id' tasks).
Proof.
  split; intros H.
  - unfold findTask, addTask. simpl. split.
    + by rewrite has_id_newTask, String.eqb_refl.
    + intros id' Hne. rewrite has_id_newTask by exact H.
      destruct (String.eqb_spec fresh id'); [congruence | reflexivity].
  - unfold findTask, updateTask. split.
    + induction tasks as [|t l IH]; simpl; [reflexivity|].
      destruct (has_id t id) eqn:E.
      * by rewrite has_id_union_no_id, E.
      * by rewrite E.
    + intros id' Hne. induction tasks as [|t l IH]; simpl; [reflexivity|].
      destruct (has_id t id) eqn:E; [|by rewrite IH].
      rewrite has_id_union_no_id, (has_id_other t id id' E Hne) by exact H.
      exact IH.
Qed.

Lemma findTask_after_witness :
  let nanoid : nat → string := λ n, String (ascii_of_nat (97 + n)) "" in
  let tasks := initialTasks nanoid in
  (λ t : task, get t "title")
    <$> findTask "d" (updateTask "d" {[ "title" := VStr "T" ]} tasks)
    = Some (VStr "T") ∧
  findTask "a" (updateTask "d" {[ "title" := VStr "T" ]} tasks)
    = findTask "a" tasks.
Proof.
  intros nanoid tasks.
  assert (({[ "title" := VStr "T" ]} : task) !! "id" = None) as Hno
    by reflexivity.
  destruct (proj2 (findTask_after ∅ {[ "title" := VStr "T" ]} "x" "d" tasks)
              Hno) as [H1 H2].
  split.
  - rewrite H1. vm_compute. reflexivity.
  - apply H2. discriminate.
Defined.

(** ** The summary of the home page *)

Section Summary.

Lemma filter_length_le {A} (p : A → bool) l :
  (length (List.filter p l) ≤ length l)%nat.
Proof. induction l as [|x l IH]; simpl; [lia|]. destruct (p x); simpl; lia. Qed.

Lemma filter_length_split {A} (p : A → bool) l :
  (length (List.filter p l) + length (List.filter (λ x, negb (p x)) l)
   = length l)%nat.
Proof. induction l as [|x l IH]; simpl; [lia|]. destruct (p x); simpl; lia. Qed.

Lemma filter_length_ext {A} (p q : A → bool) l :
  Forall (λ x, p x = q x) l →
  length (List.filter p l) = length (List.filter q l).
Proof.
  induction 1 as [|x l Hx _ IH]; simpl; [reflexivity|].
  rewrite Hx. destruct (q x); simpl; lia.
Qed.

Lemma isCompleted_flip (t : task) :
  isCompleted (<["status" := VStr (flipStatus t)]> t) = negb (isCompleted t).
Proof.
  unfold isCompleted, flipStatus. rewrite get_insert_eq.
  by destruct (value_is (get t "status") "Completed").
Qed.

Lemma completed_toggleStatus id tasks t :
  NoDup (ids tasks) → findTask id tasks = Some t →
  Z.of_nat (length (List.filter isCompleted (toggleStatus id tasks)))
  = Z.of_nat (length (List.filter isCompleted tasks))
    + (if isCompleted t then -1 else 1).
Proof.
  unfold findTask. induction tasks as [|x l IH]; simpl; [discriminate|].
  intros [Hnotin Hnd]%NoDup_cons. destruct (has_id x id) eqn:E.
  - intros [= ->]. rewrite isCompleted_flip.
    fold (toggleStatus id l). rewrite toggleStatus_unknown.
    + destruct (isCompleted t); simpl; lia.
    + apply has_id_true in E. rewrite E in Hnotin.
      destruct (idOccurs id l) eqn:Ho; [|reflexivity].
      by apply idOccurs_ids in Ho.
  - intros Hf. specialize (IH Hnd Hf). fold (toggleStatus id l).
    set (d := if isCompleted t then -1 else 1) in *. clearbody d.
    destruct (isCompleted x); simpl; lia.
Qed.

End Summary.

(** X9.  In the summary the three numbers are never negative, completed
    and pending add up to the total, and pending counts the tasks whose
    status is anything but Completed; where every status is one of the two
    it counts the Pending tasks. *)
Theorem summary_counts (tasks : list task) :
  let s := summary tasks in
  0 ≤ completed s ≤ total s ∧
  0 ≤ pending s ∧
  completed s + pending s = total s ∧
  pending s = Z.of_nat (length (List.filter (λ t, negb (isCompleted t)) tasks)) ∧
  (Forall statusOk tasks →
   pending s
   = Z.of_nat (length (List.filter (λ t, value_is (get t "status") "Pending") tasks))).
Proof.
  simpl.
  pose proof (filter_length_le isCompleted tasks) as Hle.
  pose proof (filter_length_split isCompleted tasks) as Hsplit.
  repeat split; try lia.
  intros Hok.
  rewrite (filter_length_ext (λ t, value_is (get t "status") "Pending")
             (λ t, negb (isCompleted t)) tasks); [lia|].
  eapply Forall_impl; [exact Hok|]. intros t [H|H]; unfold isCompleted;
    rewrite H; reflexivity.
Qed.

Lemma summary_counts_witness :
  let nanoid : nat → string := λ n, String (ascii_of_nat (97 + n)) "" in
  summary (initialTasks nanoid) = {| total := 3; completed := 1; pending := 2 |} ∧
  pending (summary (initialTasks nanoid))
  = Z.of_nat (length (List.filter (λ t, value_is (get t "status") "Pending")
                        (initialTasks nanoid))).
Proof.
  intros nanoid. split; [reflexivity|].
  apply (summary_counts (initialTasks nanoid)), statusOk_initialTasks.
Defined.

(** X10.  Where ids are pairwise distinct, [toggleStatus] of the id of a
    task moves exactly one task between the two counts: the total stays,
    and completed goes down by one (pending up by one) if the task was
    Completed, and up by one (pending down by one) otherwise. *)
Theorem summary_toggleStatus id (tasks : list task) t :
  NoDup (ids tasks) →
  findTask id tasks = Some t →
  let s := summary tasks in
  let d := if isCompleted t then -1 else 1 in
  summary (toggleStatus id tasks)
  = {| total := total s; completed := completed s + d; pending := pending s - d |}.
Proof.
  intros Hnd Hf. simpl. unfold summary.
  rewrite (completed_toggleStatus id tasks t Hnd Hf).
  replace (length (toggleStatus id tasks)) with (length tasks)
    by (unfold toggleStatus; by rewrite length_map).
  f_equal. lia.
Qed.

Lemma summary_toggleStatus_witness :
  let tasks : list task :=
    [ {[ "id" := VStr "a"; "status" := VStr "Pending" ]};
      {[ "id" := VStr "b"; "status" := VStr "Completed" ]} ] in
  summary tasks = {| total := 2; completed := 1; pending := 1 |} ∧
  summary (toggleStatus "a" tasks) = {| total := 2; completed := 2; pending := 0 |}.
Proof.
  intros tasks. split; [reflexivity|].
  rewrite (summary_toggleStatus "a" tasks
             {[ "id" := VStr "a"; "status" := VStr "Pending" ]}).
  - reflexivity.
  - vm_compute. repeat (apply NoDup_cons; split);
      [ intros H; repeat (apply elem_of_cons in H as [H|H]; [discriminate|]);
        inversion H ..
      | apply NoDup_nil_2 ].
  - reflexivity.
Defined.

(** ** Further properties of the filter *)

Section FilterFacts.

Variable h : host.

Lemma filterM_true {A} (p : A → option bool) l :
  Forall (λ x, p x = Some true) l → filterM p l = Some l.
Proof.
  induction 1 as [|x l Hx _ IH]; simpl; [reflexivity|]. by rewrite Hx, IH.
Qed.



Lemma filterM_is_Some {A} (p : A → option bool) l :
  is_Some (filterM p l) ↔ Forall (λ x, is_Some (p x)) l.
Proof.
  induction l as [|x l IH]; simpl.
  - split; [constructor | by eexists].
  - rewrite Forall_cons, <- IH.
    destruct (p x) as [b|], (filterM p l) as [r|]; split;
      first [ solve [intros _; split; by eexists]
            | solve [intros _; by eexists]
            | solve [intros [? [=]]]
            | solve [intros [[? [=]] _]]
            | solve [intros [_ [? [=]]]] ].
Qed.

Lemma matches_filterable f t : filterable t → is_Some (matches h f t).
Proof.
  intros ([s1 H1] & [s2 H2] & H3). unfold matches, matchesSearch, matchesTag.
  rewrite H1, H2. simpl.
  assert (∃ g, (if String.eqb (tag f) "all" then Some true
                else match get t "tags" with
                     | VArr a => Some (existsb (λ e, elem_is e (tag f)) a)
                     | VPrim p => if truthy_prim p then None else Some false
                     end) = Some g) as [g ->].
  { destruct (String.eqb (tag f) "all"); [by eexists|].
    destruct (get t "tags") as [p|a]; [rewrite H3|]; by eexists. }
  destruct (String.eqb (trim (search f)) ""); simpl; [by eexists|].
  destruct (includes (toLowerCase s1) (toLowerCase (search f))); simpl;
    by eexists.
Qed.

End FilterFacts.

(** X11.  With the filters the home page starts with, the list shows every
    task, in order, whatever the tasks hold and whatever the clock says:
    no property of a task is read. *)
Theorem filteredTasks_homeFilters h (tasks : list task) :
  filteredTasks h homeFilters tasks = Some tasks.
Proof.
  apply filterM_true, Forall_forall. intros t _. reflexivity.
Qed.



(** X13.  The filter throws on no collection whose tasks have a string
    [title], a string [description] and a [tags] that is an array or
    falsy, whatever the filters and the clock. *)
Theorem filteredTasks_returns h f (tasks : list task) :
  Forall filterable tasks → is_Some (filteredTasks h f tasks).
Proof.
  intros H. apply filterM_is_Some. eapply Forall_impl; [exact H|].
  intros t. apply matches_filterable.
Qed.

Lemma filterable_initialTasks nanoid : Forall filterable (initialTasks nanoid).
Proof.
  unfold initialTasks.
  repeat constructor; try (eexists; reflexivity); exact I.
Qed.

Lemma filteredTasks_returns_witness :
  let nanoid : nat → string := λ n, String (ascii_of_nat (97 + n)) "" in
  let f := {| search := "walk"; status := "Completed"; priority := "Low";
              tag := "Health"; date := "overdue" |} in
  is_Some (filteredTasks (cetHost 1760954400000) f (initialTasks nanoid)).
Proof.
  intros nanoid f. apply filteredTasks_returns, filterable_initialTasks.
Defined.

(** X14.  How the date filters relate, on every host.  A task that matches
    ["today"] matches ["week"].  A task with a due date never matches both
    ["today"] and ["overdue"], and never matches ["overdue"] when it is
    Completed.  A task without a due date matches all three. *)
Theorem date_filters_relate h (ft fw fo : filters) (t : task) :
  date ft = "today" → date fw = "week" → date fo = "overdue" →
  (matchesDate h ft t = true → matchesDate h fw t = true) ∧
  (truthy (get t "dueDate") = true →
     matchesDate h ft t = true → matchesDate h fo t = false) ∧
  (truthy (get t "dueDate") = true →
     isCompleted t = true → matchesDate h fo t = false) ∧
  (truthy (get t "dueDate") = false →
     matchesDate h ft t = true ∧ matchesDate h fw t = true ∧
     matchesDate h fo t = true).
Proof.
  intros Ht Hw Ho. unfold matchesDate, isCompleted. rewrite Ht, Hw, Ho. simpl.
  destruct (truthy (get t "dueDate")); simpl; [|by repeat split].
  destruct (newDate h (get t "dueDate")) as [d|]; simpl.
  - rewrite diffDays_lower, diffDays_upper. repeat split; try discriminate.
    + intros ->%Z.eqb_eq. rewrite Z.sub_diag. reflexivity.
    + intros _ ->%Z.eqb_eq. by rewrite Z.ltb_irrefl.
    + intros _ ->. by rewrite andb_false_r.
  - repeat split; try discriminate; intros; reflexivity.
Qed.

Lemma date_filters_relate_witness :
  let h := cetHost 1760954400000 in
  let on d := {| search := ""; status := "all"; priority := "all";
                 tag := "all"; date := d |} in
  let t : task := {[ "id" := VStr "a"; "status" := VStr "Pending";
                     "dueDate" := VStr "2025-10-20" ]} in
  matchesDate h (on "today") t = true ∧
  matchesDate h (on "week") t = true ∧
  matchesDate h (on "overdue") t = false.
Proof.
  intros h on t.
  destruct (date_filters_relate h (on "today") (on "week") (on "overdue") t
              eq_refl eq_refl eq_refl) as (H1 & H2 & _).
  assert (matchesDate h (on "today") t = true) as Hd by reflexivity.
  split; [exact Hd|]. split; [by apply H1 | by apply H2].
Defined.

(** X15.  Filtering commutes with deletion: when the filter returns on a
    collection, it returns on the collection after [deleteTask(id)], with
    the same result less the tasks with that id. *)
Theorem filteredTasks_deleteTask h f id (tasks r : list task) :
  filteredTasks h f tasks = Some r →
  filteredTasks h f (deleteTask id tasks) = Some (deleteTask id r).
Proof.
  unfold filteredTasks, deleteTask. revert r.
  induction tasks as [|t l IH]; simpl; intros r.
  - by intros [= <-].
  - destruct (matches h f t) as [b|] eqn:Em; [|discriminate].
    destruct (filterM (matches h f) l) as [r0|]; [|discriminate].
    intros [= <-]. specialize (IH r0 eq_refl).
    destruct (negb (has_id t id)) eqn:E; simpl.
    + rewrite Em, IH. destruct b; simpl; by rewrite ?E.
    + rewrite IH. destruct b; simpl; by rewrite ?E.
Qed.

Lemma filteredTasks_deleteTask_witness :
  let nanoid : nat → string := λ n, String (ascii_of_nat (97 + n)) "" in
  let tasks := initialTasks nanoid in
  let f := {| search := ""; status := "Pending"; priority := "all";
              tag := "all"; date := "all" |} in
  filteredTasks (fixedHost 0 0) f (deleteTask "a" tasks)
    = Some (take 1 (drop 1 tasks)).
Proof.
  intros nanoid tasks f.
  rewrite (filteredTasks_deleteTask (fixedHost 0 0) f "a" tasks (take 2 tasks));
    vm_compute; reflexivity.
Defined.

Section FilterBar.

Lemma matches_date_all h h' f (t : task) :
  date f = "all" → matches h f t = matches h' f t.
Proof.
  intros H. unfold matches, matchesDate. rewrite H. reflexivity.
Qed.

Lemma filterM_ext {A} (p q : A → option bool) l :
  (∀ x, p x = q x) → filterM p l = filterM q l.
Proof.
  intros H. induction l as [|x l IH]; simpl; [reflexivity|]. by rewrite H, IH.
Qed.

Lemma onBar_date f e : fromBar e → date (onBar f e) = date f.
Proof.
  destruct e as [name value|clicked]; simpl; [|reflexivity].
  unfold barInputs. intros H.
  repeat (apply elem_of_cons in H as [->|H]); [reflexivity ..|inversion H].
Qed.

Lemma onBar_tag f e :
  fromBar e → tag f ∈ "all" :: tagOptions → tag (onBar f e) ∈ "all" :: tagOptions.
Proof.
  destruct e as [name value|clicked]; simpl.
  - unfold barInputs. intros H.
    repeat (apply elem_of_cons in H as [->|H]); [by intros ..|inversion H].
  - intros H _. destruct (String.eqb (tag f) clicked); [by left | by right].
Qed.

End FilterBar.

(** X16.  The filter bar cannot reach the date filter: after any sequence
    of changes of its three controls and clicks on its tag buttons, from
    the filters the home page starts with, the date dimension is still
    ["all"] and the tag is ["all"] or one of the four options; hence the
    list shown does not depend on the clock or the time zone. *)
Theorem filter_bar_keeps_date (es : list barEvent) :
  Forall fromBar es →
  let f := foldl onBar homeFilters es in
  date f = "all" ∧
  tag f ∈ "all" :: tagOptions ∧
  ∀ h h' (tasks : list task), filteredTasks h f tasks = filteredTasks h' f tasks.
Proof.
  intros Hes. simpl.
  assert (date (foldl onBar homeFilters es) = "all" ∧
          tag (foldl onBar homeFilters es) ∈ "all" :: tagOptions) as [Hd Htag].
  { assert (date homeFilters = "all" ∧ tag homeFilters ∈ "all" :: tagOptions)
      as H0 by (split; [reflexivity | by left]).
    revert H0. generalize homeFilters.
    induction Hes as [|e l He _ IH]; intros f0 [H1 H2]; simpl; [by split|].
    apply IH. split; [by rewrite onBar_date | by apply onBar_tag]. }
  split; [exact Hd|]. split; [exact Htag|].
  intros h h' tasks. apply filterM_ext. intros t. by apply matches_date_all.
Qed.

Lemma filter_bar_keeps_date_witness :
  let es := [Changed "search" "react"; TagClicked "Work"; TagClicked "Daily";
             Changed "status" "Pending"] in
  foldl onBar homeFilters es
  = {| search := "react"; status := "Pending"; priority := "all";
       tag := "Daily"; date := "all" |} ∧
  date (foldl onBar homeFilters es) = "all".
Proof.
  intros es. split; [reflexivity|].
  apply (filter_bar_keeps_date es).
  repeat constructor.
Defined.

(** X17.  A click on the tag button that is active sets the tag filter
    back to ["all"], after which the list holds at least what it held; a
    click on another button makes that tag the filter.  The other four
    dimensions are not touched. *)
Theorem handleTagClick_toggles h f clicked (tasks r : list task) :
  (tag f = clicked →
     tag (handleTagClick clicked f) = "all" ∧
     (filteredTasks h f tasks = Some r →
      ∃ r', filteredTasks h (handleTagClick clicked f) tasks = Some r' ∧
            r `sublist_of` r')) ∧
  (tag f ≠ clicked → tag (handleTagClick clicked f) = clicked) ∧
  search (handleTagClick clicked f) = search f ∧
  status (handleTagClick clicked f) = status f ∧
  priority (handleTagClick clicked f) = priority f ∧
  date (handleTagClick clicked f) = date f.
Proof.
  split; [|split; [|by repeat split]].
  - intros <-. unfold handleTagClick. rewrite String.eqb_refl.
    split; [reflexivity|]. intros H.
    apply (filterM_grows (matches h f)); [|exact H].
    intros t b. apply (matches_relax h DTag).
  - intros Hne. unfold handleTagClick. simpl.
    destruct (String.eqb_spec (tag f) clicked); [contradiction | reflexivity].
Qed.

Lemma handleTagClick_toggles_witness :
  let f := {| search := ""; status := "all"; priority := "all";
              tag := "Daily"; date := "all" |} in
  tag (handleTagClick "Daily" f) = "all" ∧ tag (handleTagClick "Work" f) = "Work".
Proof.
  intros f.
  destruct (handleTagClick_toggles (fixedHost 0 0) f "Daily" [] []) as ([H1 _] & _);
    [reflexivity|].
  destruct (handleTagClick_toggles (fixedHost 0 0) f "Work" [] []) as (_ & H2 & _).
  split; [exact H1 | apply H2; discriminate].
Defined.

(** ** Strings: blanks, trimming and splitting *)

Section StringFacts.






Lemma trimEnd_blank s : allSpace s = true → trimEnd s = "".
Proof.
  induction s as [|c r IH]; simpl; [reflexivity|].
  intros [Hc Hr]%andb_true_iff. by rewrite Hc, (IH Hr).
Qed.





Lemma trim_space s : trim (String " " s) = trim s.
Proof. reflexivity. Qed.








End StringFacts.



(** ** The add and edit form *)

Section FormFacts.

Variable nanoid : nat → string.

Lemma asString_Some v s : asString v = Some s ↔ v = VStr s.
Proof.
  destruct v as [[| |b|s']|a]; simpl; split; try discriminate; congruence.
Qed.

Lemma payload_inv (form p : task) :
  payload nanoid form = Some p →
  ∃ title description tags subtasks,
    get form "title" = VStr title ∧
    get form "description" = VStr description ∧
    get form "tags" = VStr tags ∧
    get form "subtasks" = VStr subtasks ∧
    p = {[ "title" := VStr (trim title);
           "description" := VStr (trim description);
           "dueDate" := get form "dueDate";
           "priority" := get form "priority";
           "status" := get form "status";
           "tags" := VArr (payloadTags tags);
           "subtasks" := VArr (payloadSubtasks nanoid subtasks) ]}.
Proof.
  unfold payload.
  destruct (asString (get form "title")) as [title|] eqn:E1; [|discriminate].
  destruct (asString (get form "description")) as [description|] eqn:E2;
    [|discriminate].
  destruct (asString (get form "tags")) as [tags|] eqn:E3; [|discriminate].
  destruct (asString (get form "subtasks")) as [subtasks|] eqn:E4;
    [|discriminate].
  simpl. intros [= <-]. exists title, description, tags, subtasks.
  apply asString_Some in E1, E2, E3, E4. by repeat split.
Qed.

Lemma payload_no_id (form p : task) :
  payload nanoid form = Some p → p !! "id" = None.
Proof.
  intros (title & description & tags & subtasks & _ & _ & _ & _ & ->)%payload_inv.
  reflexivity.
Qed.



End FormFacts.



(** X20.  A submit never brings in an id of its own: the payload has no
    [id] key, so that a submit on the edit route leaves the ids of the
    collection as they are, and a submit on the add route puts the result
    of the [nanoid()] call that follows those of the subtasks in front of
    them. *)
Theorem handleSubmit_ids nanoid id (form : task) tasks tasks' :
  handleSubmit nanoid id form tasks = Some (Saved tasks') →
  ∃ p, payload nanoid form = Some p ∧ p !! "id" = None ∧
       (isEditing id = true → ids tasks' = ids tasks) ∧
       (isEditing id = false →
        ids tasks' = VStr (nanoid (length (subtasksOf p))) :: ids tasks).
Proof.
  unfold handleSubmit.
  destruct (payload nanoid form) as [p|] eqn:Ep; simpl; [|discriminate].
  pose proof (payload_no_id nanoid form p Ep) as Hno.
  destruct (negb (truthy (get p "title"))); [discriminate|].
  destruct (isEditing id); intros [= <-]; exists p;
    (split; [reflexivity|]); (split; [exact Hno|]); split; try discriminate;
    intros _.
  - by apply ids_updateTask.
  - by apply ids_addTask_no_id.
Qed.

Lemma handleSubmit_ids_witness :
  let nanoid : nat → string := λ n, String (ascii_of_nat (97 + n)) "" in
  let form :=
    handleFormChange "subtasks" ("one" +:+ newline +:+ "two")
      (handleFormChange "title" "X" emptyForm) in
  ∃ tasks', handleSubmit nanoid None form (initialTasks (λ n, nanoid (10 + n)%nat))
              = Some (Saved tasks') ∧
            ids tasks' = [VStr "c"; VStr "k"; VStr "n"; VStr "q"].
Proof.
  intros nanoid form.
  assert (∃ tasks', handleSubmit nanoid None form
                      (initialTasks (λ n, nanoid (10 + n)%nat))
                    = Some (Saved tasks')) as [tasks' H]
    by (eexists; vm_compute; reflexivity).
  exists tasks'. split; [exact H|].
  destruct (handleSubmit_ids _ _ _ _ _ H) as (p & Hp & _ & _ & Hadd).
  rewrite (Hadd eq_refl).
  vm_compute in Hp. injection Hp as <-. vm_compute. reflexivity.
Defined.

Section Usable.

Lemma readable_mkSub id text done : readable (mkSub id text done).
Proof. exact I. Qed.

Lemma Forall_readable_imap nanoid (l : list string) :
  Forall readable (imap (λ i text, mkSub (nanoid i) text false) l).
Proof.
  revert nanoid. induction l as [|x l IH]; intros nanoid; simpl; constructor.
  - exact I.
  - apply (IH (nanoid ∘ S)).
Qed.

Lemma Forall_readable_payloadSubtasks nanoid s :
  Forall readable (payloadSubtasks nanoid s).
Proof.
  unfold payloadSubtasks. destruct (String.eqb (trim s) ""); [constructor|].
  apply Forall_readable_imap.
Qed.

(** Whatever a payload is merged over, the result is usable. *)
Lemma usable_payload nanoid (form p t : task) :
  payload nanoid form = Some p → usable (p ∪ t).
Proof.
  intros (title & description & tags & subtasks & _ & _ & _ & _ & ->)%payload_inv.
  unfold usable, filterable, subtasksUsable.
  rewrite !(get_union_l _ t "title" (VStr (trim title))) by reflexivity.
  rewrite !(get_union_l _ t "description" (VStr (trim description))) by reflexivity.
  rewrite !(get_union_l _ t "tags" (VArr (payloadTags tags))) by reflexivity.
  rewrite !(get_union_l _ t "subtasks" (VArr (payloadSubtasks nanoid subtasks)))
    by reflexivity.
  split; [split; [by eexists | split; [by eexists | exact I]]|].
  apply Forall_readable_payloadSubtasks.
Qed.

Lemma usable_insert_status (t : task) v : usable t → usable (<["status" := v]> t).
Proof.
  unfold usable, filterable, subtasksUsable.
  by rewrite !get_insert_ne by discriminate.
Qed.

Lemma toggleSub_readable subtaskId e e' :
  toggleSub subtaskId e = Some e' → readable e'.
Proof.
  unfold toggleSub. destruct e as [[| |b|s]|o]; simpl; try discriminate;
    try (by intros [= <-]).
  destruct (prim_is _ _); by intros [= <-].
Qed.

Lemma toggleSubs_readable subtaskId v a' :
  toggleSubs subtaskId v = Some a' → Forall readable a'.
Proof.
  destruct v as [p|a]; simpl.
  - destruct (truthy_prim p); [discriminate|]. intros [= <-]. constructor.
  - intros H%mapM_Some_1. induction H as [|e e' l l' He _ IH]; constructor;
      [by eapply toggleSub_readable | exact IH].
Qed.

Lemma usable_toggleSubtaskIn taskId subtaskId (t t' : task) :
  toggleSubtaskIn taskId subtaskId t = Some t' → usable t → usable t'.
Proof.
  unfold toggleSubtaskIn. destruct (has_id t taskId); simpl;
    [|by intros [= <-]].
  destruct (toggleSubs subtaskId (get t "subtasks")) as [a'|] eqn:E; simpl;
    [|discriminate].
  intros [= <-] [Hf _]. split.
  - unfold filterable in *. by rewrite !get_insert_ne by discriminate.
  - unfold subtasksUsable. rewrite get_insert_eq.
    by eapply toggleSubs_readable.
Qed.

Lemma usable_dispatch a tasks :
  match a with AddTask _ _ | UpdateTask _ _ => False | _ => True end →
  Forall usable tasks → Forall usable (dispatch a tasks).
Proof.
  destruct a as [fresh data|id updates|id|id|tid sid]; simpl;
    try contradiction; intros _ H.
  - unfold deleteTask. induction H as [|t l Ht _ IH]; simpl; [constructor|].
    destruct (negb (has_id t id)); [by constructor | exact IH].
  - unfold toggleStatus. induction H as [|t l Ht _ IH]; simpl; constructor;
      [|exact IH].
    destruct (has_id t id); [by apply usable_insert_status | exact Ht].
  - destruct (toggleSubtask tid sid tasks) as [tasks'|] eqn:E; simpl;
      [|exact H].
    unfold toggleSubtask in E. apply mapM_Some_1 in E.
    induction E as [|t t' l l' Ht _ IH]; [constructor|].
    apply Forall_cons in H as [Hu H].
    constructor; [by eapply usable_toggleSubtaskIn | by apply IH].
Qed.

Lemma usable_handleSubmit nanoid id (form : task) tasks tasks' :
  handleSubmit nanoid id form tasks = Some (Saved tasks') →
  Forall usable tasks → Forall usable tasks'.
Proof.
  unfold handleSubmit.
  destruct (payload nanoid form) as [p|] eqn:Ep; simpl; [|discriminate].
  destruct (negb (truthy (get p "title"))); [discriminate|].
  destruct (isEditing id); intros [= <-] H.
  - unfold updateTask. induction H as [|t l Ht _ IH]; simpl; constructor;
      [|exact IH].
    destruct (has_id t (default "" id)); [by eapply usable_payload | exact Ht].
  - constructor; [|exact H]. unfold newTask. by eapply usable_payload.
Qed.

Lemma usable_initialTasks nanoid : Forall usable (initialTasks nanoid).
Proof.
  unfold initialTasks.
  repeat constructor; try (eexists; reflexivity); try exact I.
Qed.

Lemma usable_uiStep tasks tasks' :
  uiStep tasks tasks' → Forall usable tasks → Forall usable tasks'.
Proof.
  intros [nanoid id form l l' H|id l|id l|tid sid l].
  - by eapply usable_handleSubmit.
  - by apply usable_dispatch.
  - by apply usable_dispatch.
  - by apply usable_dispatch.
Qed.

End Usable.

(** X21.  Whatever the user does on the pages, starting from the initial
    tasks (submits of the form that save, status and delete buttons,
    checkboxes of subtasks), every task of the store keeps a string title,
    a string description, a [tags] that is an array or falsy and a
    [subtasks] that is falsy or an array without [null] and [undefined];
    hence the filter throws for no filters and no clock, and
    [toggleSubtask] for no pair of ids. *)
Theorem ui_never_throws nanoid (tasks : list task) :
  rtc uiStep (initialTasks nanoid) tasks →
  Forall usable tasks ∧
  (∀ h f, is_Some (filteredTasks h f tasks)) ∧
  (∀ taskId subtaskId, is_Some (toggleSubtask taskId subtaskId tasks)).
Proof.
  intros Hreach.
  assert (Forall usable tasks) as Hu.
  { revert tasks Hreach. apply rtc_ind_r; [apply usable_initialTasks|].
    intros l1 l2 _ Hstep IH. by eapply usable_uiStep. }
  split; [exact Hu|]. split.
  - intros h f. apply filterM_is_Some. eapply Forall_impl; [exact Hu|].
    intros t [Hf _]. by apply matches_filterable.
  - intros taskId subtaskId. unfold toggleSubtask. apply mapM_is_Some.
    eapply Forall_impl; [exact Hu|]. intros t [_ Hs]. simpl.
    unfold toggleSubtaskIn. destruct (has_id t taskId); simpl; [|by eexists].
    destruct (proj2 (toggleSubs_is_Some subtaskId t) Hs) as [a' ->].
    by eexists.
Qed.

Lemma ui_never_throws_witness :
  let nanoid : nat → string := λ n, String (ascii_of_nat (97 + n)) "" in
  let tasks := dispatch (DeleteTask "d") (dispatch (ToggleStatus "a") (initialTasks nanoid)) in
  let f := {| search := "stretch"; status := "Completed"; priority := "all";
              tag := "Daily"; date := "week" |} in
  rtc uiStep (initialTasks nanoid) tasks ∧
  is_Some (filteredTasks (cetHost 1760954400000) f tasks) ∧
  is_Some (toggleSubtask "g" "h" tasks).
Proof.
  intros nanoid tasks f.
  assert (rtc uiStep (initialTasks nanoid) tasks) as Hreach.
  { eapply rtc_l; [apply step_toggle|]. apply rtc_once, step_delete. }
  split; [exact Hreach|].
  destruct (ui_never_throws nanoid tasks Hreach) as (_ & Hf & Ht).
  split; [apply Hf | apply Ht].
Defined.

Section PayloadFacts.










End PayloadFacts.









(** X25.  The two buttons of a task card compose in any order: deleting
    one id and toggling another (or the same) commute, deletions commute,
    deleting twice is deleting once, and toggling an id that was deleted
    changes nothing. *)
Theorem card_buttons_compose id id' (tasks : list task) :
  deleteTask id (toggleStatus id' tasks) = toggleStatus id' (deleteTask id tasks) ∧
  deleteTask id (deleteTask id' tasks) = deleteTask id' (deleteTask id tasks) ∧
  deleteTask id (deleteTask id tasks) = deleteTask id tasks ∧
  toggleStatus id (deleteTask id tasks) = deleteTask id tasks.
Proof.
  split; [|split; [|split]].
  - unfold deleteTask, toggleStatus. induction tasks as [|t l IH]; simpl;
      [reflexivity|].
    destruct (has_id t id') eqn:E'; rewrite ?has_id_insert_status;
      destruct (has_id t id) eqn:E; simpl; rewrite ?E', ?IH; reflexivity.
  - unfold deleteTask. induction tasks as [|t l IH]; simpl; [reflexivity|].
    destruct (has_id t id') eqn:E', (has_id t id) eqn:E; simpl;
      rewrite ?E, ?E'; simpl; by rewrite ?IH.
  - apply deleteTask_unknown, deleteTask_absent_after.
  - apply toggleStatus_unknown, deleteTask_absent_after.
Qed.
